(** * Real-time audio streaming engine: capture conditioning, frame codec,
      streaming transport and playback scheduler.

    Shallow embedding of [AudioRecorder.tsx] (capture pipeline) and of the
    [VoiceSocket] class (transport and playback).

    Numbers.  JavaScript numbers that hold audio samples and clock values are
    embedded as exact rationals [Q]: the arithmetic of the source is kept
    operation by operation, without the IEEE-754 rounding of each operation
    and without the narrowing of a [Float32Array] store.  Module [Binary64]
    gives the conditioning loops with both, to evaluate them at given
    inputs.  Integer typed arrays ([Int16Array], [Uint8Array]) are embedded
    as [Z] with their conversion (truncation and wrap-around) written out.
    Counters are [Z]. *)

From Stdlib Require Import String Ascii.
From Stdlib Require Import ZArith QArith Qabs Qround.
From Stdlib Require Import List Bool Lia Lqa.
From Stdlib Require Floats.PrimFloat Floats.FloatOps Floats.SpecFloat.
Import ListNotations.

(** ** Numeric helpers shared by the components *)

Module JSNum.

(** [x < y] on numbers, as a boolean. *)
Definition ltb (x y : Q) : bool := negb (Qle_bool y x).

(** Integer part of a number, rounding towards zero (the first step of
    every ECMAScript integer conversion). *)
Definition trunc (x : Q) : Z := Z.quot (Qnum x) (Zpos (Qden x)).


(** [Math.max] and [Math.min] on two numbers. *)
Definition Math_max (a b : Q) : Q := if Qle_bool a b then b else a.
Definition Math_min (a b : Q) : Q := if Qle_bool a b then a else b.

(** Storing a number into an [Int16Array] element: truncate, reduce modulo
    2^16, and read the result as a signed 16-bit integer. *)
Definition toInt16 (x : Q) : Z :=
  let m := (trunc x mod 65536)%Z in
  if (32768 <=? m)%Z then (m - 65536)%Z else m.

Definition in_int16 (s : Z) : Prop := (-32768 <= s <= 32767)%Z.

End JSNum.

(** ** Web platform functions called by the source

    [btoa] and [atob] follow the forgiving-base64 encode and decode of the
    WHATWG Infra standard; [DataView.prototype.getInt16] and the
    [Float32Array] constructor follow ECMAScript.  A JavaScript string whose
    code units are all below 256 (a binary string) is a [string]; a
    [Uint8Array] is a list of integers in [0, 256). *)

Module Platform.

Definition is_byte (b : Z) : Prop := (0 <= b < 256)%Z.
Definition is_sextet (v : Z) : Prop := (0 <= v < 64)%Z.

(** [String.fromCharCode(...bytes)] and [s.charCodeAt(i)] for every [i]. *)
Definition charOfCode (b : Z) : ascii := ascii_of_N (Z.to_N b).
Definition codeOfChar (c : ascii) : Z := Z.of_N (N_of_ascii c).

Definition fromCharCode (bytes : list Z) : string :=
  string_of_list_ascii (map charOfCode bytes).
Definition charCodes (s : string) : list Z :=
  map codeOfChar (list_ascii_of_string s).

(** *** Base64 *)

Definition alphabet : string :=
  "ABCDEFGHIJKLMNOPQRSTUVWXYZabcdefghijklmnopqrstuvwxyz0123456789+/".

Definition padChar : ascii := "="%char.

(** The character of a 6-bit value. *)
Definition b64char (v : Z) : ascii :=
  match String.get (Z.to_nat v) alphabet with
  | Some c => c
  | None => padChar
  end.

(** The 6-bit value of a character of the alphabet. *)
Definition b64value (c : ascii) : option Z :=
  let n := codeOfChar c in
  if ((65 <=? n) && (n <=? 90))%Z then Some (n - 65)%Z
  else if ((97 <=? n) && (n <=? 122))%Z then Some (n - 71)%Z
  else if ((48 <=? n) && (n <=? 57))%Z then Some (n + 4)%Z
  else if (n =? 43)%Z then Some 62%Z
  else if (n =? 47)%Z then Some 63%Z
  else None.

(** Three bytes give four 6-bit values; a last group of one or two bytes
    gives two or three, its missing bits being zero. *)
Fixpoint sextets (bytes : list Z) : list Z :=
  match bytes with
  | [] => []
  | [a] => [a / 4; (a mod 4) * 16]%Z
  | [a; b] => [a / 4; (a mod 4) * 16 + b / 16; (b mod 16) * 4]%Z
  | a :: b :: c :: rest =>
      (a / 4 :: (a mod 4) * 16 + b / 16 :: (b mod 16) * 4 + c / 64
         :: c mod 64 :: sextets rest)%Z
  end.

Definition padding (byteCount : nat) : list ascii :=
  match Nat.modulo byteCount 3 with
  | 1%nat => [padChar; padChar]
  | 2%nat => [padChar]
  | _ => []
  end.

Definition base64Encode (bytes : list Z) : string :=
  string_of_list_ascii
    (map b64char (sextets bytes) ++ padding (List.length bytes)).

(** [btoa(binary)]: every code unit of a [string] is below 256, so the
    call cannot throw. *)
Definition btoa (binary : string) : string := base64Encode (charCodes binary).

(** ASCII whitespace: TAB, LF, FF, CR and SPACE. *)
Definition isAsciiWhitespace (c : ascii) : bool :=
  let n := codeOfChar c in
  ((n =? 9) || (n =? 10) || (n =? 12) || (n =? 13) || (n =? 32))%Z.

Definition isPad (c : ascii) : bool := (codeOfChar c =? 61)%Z.

(** Step 2 of the decoder: when the length is a multiple of four, one or
    two trailing [=] are removed. *)
Definition stripPadding (data : list ascii) : list ascii :=
  if (Nat.modulo (List.length data) 4 =? 0)%nat then
    match rev data with
    | c1 :: c2 :: r =>
        if isPad c1 then (if isPad c2 then rev r else rev (c2 :: r)) else data
    | [c1] => if isPad c1 then [] else data
    | [] => data
    end
  else data.

(** Step 4: every remaining character must belong to the alphabet. *)
Fixpoint valuesOf (data : list ascii) : option (list Z) :=
  match data with
  | [] => Some []
  | c :: rest =>
      match b64value c, valuesOf rest with
      | Some v, Some vs => Some (v :: vs)
      | _, _ => None
      end
  end.

(** Steps 5 to 9: four values give three bytes; a rest of two values
    (12 bits) gives one byte and a rest of three (18 bits) two bytes, the
    surplus low bits being discarded. *)
Fixpoint bytesOfValues (values : list Z) : list Z :=
  match values with
  | v1 :: v2 :: v3 :: v4 :: rest =>
      (v1 * 4 + v2 / 16 :: (v2 mod 16) * 16 + v3 / 4 :: (v3 mod 4) * 64 + v4
         :: bytesOfValues rest)%Z
  | [v1; v2; v3] => [v1 * 4 + v2 / 16; (v2 mod 16) * 16 + v3 / 4]%Z
  | [v1; v2] => [v1 * 4 + v2 / 16]%Z
  | _ => []
  end.

Definition base64Decode (data : list ascii) : option (list Z) :=
  let data := filter (fun c => negb (isAsciiWhitespace c)) data in
  let data := stripPadding data in
  if (Nat.modulo (List.length data) 4 =? 1)%nat then None
  else option_map bytesOfValues (valuesOf data).

(** [atob(data)]: [None] stands for the thrown [InvalidCharacterError]. *)
Definition atob (data : string) : option string :=
  option_map fromCharCode (base64Decode (list_ascii_of_string data)).

(** *** Typed arrays *)

(** The bytes of an [Int16Array] element seen through a [Uint8Array] on the
    same buffer (two's complement, low byte first: the byte order of every
    platform the page runs on). *)
Definition int16Bytes (s : Z) : list Z := [s mod 256; (s / 256) mod 256]%Z.

Definition uint8ViewOfInt16 (pcmData : list Z) : list Z :=
  flat_map int16Bytes pcmData.

(** [uint8View.subarray(from, to)]. *)
Definition subarray (view : list Z) (from to : nat) : list Z :=
  firstn (to - from) (skipn from view).

(** [view.getInt16(byteOffset, true)] on a buffer holding [bytes]: [None]
    stands for the [RangeError] thrown when the two bytes are not both
    inside the buffer. *)
Definition getInt16LE (bytes : list Z) (byteOffset : nat) : option Z :=
  if (byteOffset + 2 <=? List.length bytes)%nat then
    let lo := nth byteOffset bytes 0%Z in
    let hi := nth (byteOffset + 1) bytes 0%Z in
    let u := (lo + 256 * hi)%Z in
    Some (if (32768 <=? u)%Z then u - 65536 else u)%Z
  else None.

(** [new Float32Array(n)] for a non-negative number [n]: the length is
    [n] truncated ([ToIndex]), every element is zero. *)
Definition newFloat32Array (n : Q) : list Q :=
  repeat 0 (Z.to_nat (JSNum.trunc n)).

(** [array[i] = v]: a store outside the array is ignored. *)
Fixpoint storeAt (array : list Q) (i : nat) (v : Q) : list Q :=
  match array, i with
  | [], _ => []
  | _ :: rest, O => v :: rest
  | x :: rest, S j => x :: storeAt rest j v
  end.

End Platform.

(** ** Streaming Transport and Playback Scheduler: class [VoiceSocket] *)

Module VoiceSocket.
Import JSNum.

(** What the class reads from its surroundings: [typeof window], the
    [AudioContext] constructor, and the sample rates that
    [AudioContext.createBuffer] accepts. *)
Record Browser := {
  hasWindow : bool;
  hasAudioContextCtor : bool;
  supportsSampleRate : Q -> bool
}.

Inductive ReadyState := CONNECTING | OPEN | CLOSING | CLOSED.

Record OutgoingAudioPayload := {
  data : string;
  sample_rate : Z;
  channels : Z
}.

(** A parsed inbound message: its [type], and those of [value], [data] and
    [sample_rate] that have the expected JavaScript type. *)
Record ServerMessage := {
  msg_type : string;
  msg_value : option string;
  msg_data : option string;
  msg_sample_rate : option Q
}.

(** [event.data] of a message event: empty, not valid JSON, or parsed. *)
Inductive MessageData :=
| EmptyData
| Unparsable
| Parsed (m : ServerMessage).

Inductive LogLevel := info | success | error.

(** The messages given to [this.log], by template and arguments. *)
Inductive LogMessage :=
| WebSocketConnected
| WebSocketDisconnected (code : Z)
| AttemptingToReconnect (attempt maxAttempts : Z)
| WebSocketError
| StateIs (value : string)
| Received
| FailedToParse
| WebAudioUnsupported
| AudioPlaybackError.

Inductive AudioContextState := running | closed.

(** Everything the object does to the outside, in the order it does it.
    [SocketSend payload] is [socket.send(JSON.stringify(payload))]; what is
    written to the console only is not recorded. *)
Inductive Effect :=
| Log (m : LogMessage) (level : LogLevel)
| SocketSend (payload : OutgoingAudioPayload)
| SetTimeout (delay : Z)
| SourceStart (when : Q) (samples : list Q) (sampleRate : Q)
| OnOpenCallback
| OnCloseCallback (code : Z)
| OnStateCallback (value : string)
| OnMessageCallback (m : ServerMessage)
| OnErrorCallback.

(** The fields of the object, the timers it has pending and the trace of
    its effects.  [socket] is the ready state of the [WebSocket] held in
    [this.socket], [None] for [null]. *)
Record state := {
  socket : option ReadyState;
  reconnectAttempts : Z;
  messageQueue : list OutgoingAudioPayload;
  isClosing : bool;
  playbackContext : option AudioContextState;
  playbackClock : Q;
  pendingTimers : list Z;
  effects : list Effect
}.

Definition maxReconnectAttempts : Z := 5.
Definition reconnectDelay : Z := 1000.

(** A newly constructed [VoiceSocket]. *)
Definition new : state := {|
  socket := None;
  reconnectAttempts := 0;
  messageQueue := [];
  isClosing := false;
  playbackContext := None;
  playbackClock := 0;
  pendingTimers := [];
  effects := []
|}.

Definition set_socket v (s : state) : state :=
  {| socket := v; reconnectAttempts := reconnectAttempts s;
     messageQueue := messageQueue s; isClosing := isClosing s;
     playbackContext := playbackContext s; playbackClock := playbackClock s;
     pendingTimers := pendingTimers s; effects := effects s |}.

Definition set_reconnectAttempts v (s : state) : state :=
  {| socket := socket s; reconnectAttempts := v;
     messageQueue := messageQueue s; isClosing := isClosing s;
     playbackContext := playbackContext s; playbackClock := playbackClock s;
     pendingTimers := pendingTimers s; effects := effects s |}.

Definition set_messageQueue v (s : state) : state :=
  {| socket := socket s; reconnectAttempts := reconnectAttempts s;
     messageQueue := v; isClosing := isClosing s;
     playbackContext := playbackContext s; playbackClock := playbackClock s;
     pendingTimers := pendingTimers s; effects := effects s |}.

Definition set_isClosing v (s : state) : state :=
  {| socket := socket s; reconnectAttempts := reconnectAttempts s;
     messageQueue := messageQueue s; isClosing := v;
     playbackContext := playbackContext s; playbackClock := playbackClock s;
     pendingTimers := pendingTimers s; effects := effects s |}.

Definition set_playbackContext v (s : state) : state :=
  {| socket := socket s; reconnectAttempts := reconnectAttempts s;
     messageQueue := messageQueue s; isClosing := isClosing s;
     playbackContext := v; playbackClock := playbackClock s;
     pendingTimers := pendingTimers s; effects := effects s |}.

Definition set_playbackClock v (s : state) : state :=
  {| socket := socket s; reconnectAttempts := reconnectAttempts s;
     messageQueue := messageQueue s; isClosing := isClosing s;
     playbackContext := playbackContext s; playbackClock := v;
     pendingTimers := pendingTimers s; effects := effects s |}.

Definition set_pendingTimers v (s : state) : state :=
  {| socket := socket s; reconnectAttempts := reconnectAttempts s;
     messageQueue := messageQueue s; isClosing := isClosing s;
     playbackContext := playbackContext s; playbackClock := playbackClock s;
     pendingTimers := v; effects := effects s |}.

Definition emit (e : Effect) (s : state) : state :=
  {| socket := socket s; reconnectAttempts := reconnectAttempts s;
     messageQueue := messageQueue s; isClosing := isClosing s;
     playbackContext := playbackContext s; playbackClock := playbackClock s;
     pendingTimers := pendingTimers s; effects := effects s ++ [e] |}.

(** *** Projections of the trace *)

(** The payloads handed to [socket.send], oldest first. *)
Definition sent (s : state) : list OutgoingAudioPayload :=
  flat_map (fun e => match e with SocketSend p => [p] | _ => [] end)
           (effects s).

(** The delays of the [setTimeout] calls, oldest first. *)
Definition scheduled (s : state) : list Z :=
  flat_map (fun e => match e with SetTimeout d => [d] | _ => [] end)
           (effects s).

(** The start times given to [source.start], oldest first. *)
Definition started (s : state) : list Q :=
  flat_map (fun e => match e with SourceStart t _ _ => [t] | _ => [] end)
           (effects s).

(** The messages logged at level [error]. *)
Definition errorsLogged (s : state) : list LogMessage :=
  flat_map (fun e => match e with Log m error => [m] | _ => [] end)
           (effects s).

(** *** Methods *)

Definition log (m : LogMessage) (level : LogLevel) (s : state) : state :=
  emit (Log m level) s.

(** [isConnected()]. *)
Definition isConnected (s : state) : bool :=
  match socket s with
  | Some OPEN => true
  | _ => false
  end.

(** [teardownPlayback()]; the closing of the context and the [finally]
    block are taken as one step. *)
Definition teardownPlayback (s : state) : state :=
  match playbackContext s with
  | None => s
  | Some _ => set_playbackClock 0 (set_playbackContext None s)
  end.

(** [connect()]: the handlers it installs are [onopen], [onclose],
    [onerror] and [onmessage] below. *)
Definition connect (b : Browser) (s : state) : state :=
  if hasWindow b then set_socket (Some CONNECTING) s else s.

(** [init()]. *)
Definition init (b : Browser) (s : state) : state :=
  connect b
    (set_messageQueue []
       (set_reconnectAttempts 0
          (set_isClosing false s))).

(** [send(data)]. *)
Definition send (payload : OutgoingAudioPayload) (s : state) : state :=
  match socket s with
  | Some OPEN => emit (SocketSend payload) s
  | _ => set_messageQueue (messageQueue s ++ [payload]) s
  end.

(** The [while] loop of [flushMessageQueue()]: [queue] is
    [this.messageQueue], one element is shifted and sent at each turn (a
    payload is an object, so the test [if (payload)] always passes). *)
Fixpoint flushLoop (queue : list OutgoingAudioPayload) (s : state) : state :=
  match queue with
  | [] => s
  | payload :: rest =>
      flushLoop rest (emit (SocketSend payload) (set_messageQueue rest s))
  end.

Definition flushMessageQueue (s : state) : state :=
  match socket s with
  | Some OPEN => flushLoop (messageQueue s) s
  | _ => s
  end.

(** [close(code, reason)]. *)
Definition close (s : state) : state :=
  let s := set_isClosing true s in
  let s := match socket s with
           | Some _ => set_socket None s
           | None => s
           end in
  set_messageQueue [] (teardownPlayback s).

(** The [onopen] handler. *)
Definition onopen (s : state) : state :=
  emit OnOpenCallback
    (flushMessageQueue
       (set_reconnectAttempts 0
          (log WebSocketConnected success s))).

(** The function given to [setTimeout] by the [onclose] handler. *)
Definition reconnectTimer (b : Browser) (s : state) : state :=
  let s := set_reconnectAttempts (reconnectAttempts s + 1) s in
  let s := log (AttemptingToReconnect (reconnectAttempts s)
                                      maxReconnectAttempts) info s in
  connect b s.

(** [setTimeout(reconnectTimer, delay)]. *)
Definition setTimeout (delay : Z) (s : state) : state :=
  set_pendingTimers (pendingTimers s ++ [delay]) (emit (SetTimeout delay) s).

(** The [onclose] handler, for a close event with code [code]. *)
Definition onclose (code : Z) (s : state) : state :=
  let s := log (WebSocketDisconnected code) info s in
  let s := emit (OnCloseCallback code) s in
  let s := teardownPlayback s in
  if negb (isClosing s) && negb (code =? 1000)%Z
     && (reconnectAttempts s <? maxReconnectAttempts)%Z
  then setTimeout (reconnectDelay * reconnectAttempts s) s
  else if isClosing s then set_isClosing false s
  else s.

(** The [onerror] handler. *)
Definition onerror (s : state) : state :=
  emit OnErrorCallback (log WebSocketError error s).

(** [ensurePlaybackContext()]: the state after the call and whether a
    context was returned.  [now] is [currentTime] of the context. *)
Definition ensurePlaybackContext (b : Browser) (now : Q) (s : state)
  : state * bool :=
  if negb (hasWindow b) then (s, false)
  else
    match playbackContext s with
    | Some running => (s, true)
    | _ =>
        if negb (hasAudioContextCtor b)
        then (log WebAudioUnsupported error s, false)
        else (set_playbackClock now (set_playbackContext (Some running) s),
              true)
    end.

(** The decoding loop of [handleAudioPlayback]: [i] is the loop counter,
    [float32] the array being filled, [fuel] bounds the number of turns.
    [None] stands for the exception thrown by [getInt16]. *)
Fixpoint decodeLoop (fuel : nat) (bytes : list Z) (sampleCount : Q)
    (i : nat) (float32 : list Q) : option (list Q) :=
  match fuel with
  | O => Some float32
  | S fuel' =>
      if ltb (inject_Z (Z.of_nat i)) sampleCount then
        match Platform.getInt16LE bytes (i * 2) with
        | None => None
        | Some sample =>
            decodeLoop fuel' bytes sampleCount (S i)
              (Platform.storeAt float32 i (inject_Z sample / 32768))
        end
      else Some float32
  end.

(** From [atob(payload.data)] to the filled [float32]; [None] stands for a
    thrown exception. *)
Definition decodeSamples (data : string) : option (list Q) :=
  match Platform.atob data with
  | None => None
  | Some byteStr =>
      let bytes := Platform.charCodes byteStr in
      let sampleCount := inject_Z (Z.of_nat (String.length byteStr)) / 2 in
      let float32 := Platform.newFloat32Array sampleCount in
      decodeLoop (S (String.length byteStr)) bytes sampleCount 0 float32
  end.

(** [playbackContext.createBuffer(1, length, sampleRate)] followed by
    [copyToChannel]: the duration of the buffer, [None] for the
    [NotSupportedError] thrown for an empty buffer or an unsupported
    sample rate. *)
Definition createBuffer (b : Browser) (float32 : list Q) (sampleRate : Q)
  : option Q :=
  if (List.length float32 =? 0)%nat then None
  else if negb (supportsSampleRate b sampleRate) then None
  else Some (inject_Z (Z.of_nat (List.length float32)) / sampleRate).

(** The scheduling at the end of the [try] block. *)
Definition schedule (now : Q) (float32 : list Q) (sampleRate duration : Q)
    (s : state) : state :=
  let s := if ltb (playbackClock s) (now + (5 # 100))
           then set_playbackClock (now + (1 # 10)) s
           else s in
  let s := emit (SourceStart (playbackClock s) float32 sampleRate) s in
  set_playbackClock (playbackClock s + duration) s.

(** [payload.sample_rate ?? 24000]. *)
Definition sampleRateOf (payload : ServerMessage) : Q :=
  match msg_sample_rate payload with
  | Some r => r
  | None => 24000
  end.

(** [handleAudioPlayback(payload)]. *)
Definition handleAudioPlayback (b : Browser) (now : Q) (payload : ServerMessage)
    (s : state) : state :=
  match msg_data payload with
  | None => s
  | Some EmptyString => s
  | Some data =>
      let (s, haveContext) := ensurePlaybackContext b now s in
      if negb haveContext then s
      else
        let sampleRate := sampleRateOf payload in
        match decodeSamples data with
        | None => log AudioPlaybackError error s
        | Some float32 =>
            match createBuffer b float32 sampleRate with
            | None => log AudioPlaybackError error s
            | Some duration => schedule now float32 sampleRate duration s
            end
        end
  end.

(** The [onmessage] handler. *)
Definition onmessage (b : Browser) (now : Q) (d : MessageData) (s : state)
  : state :=
  match d with
  | EmptyData => s
  | Unparsable => log Received info (log FailedToParse error s)
  | Parsed parsed =>
      let s :=
        if String.eqb (msg_type parsed) "state" then
          match msg_value parsed with
          | None | Some EmptyString => s
          | Some value =>
              emit (OnStateCallback value) (log (StateIs value) success s)
          end
        else if String.eqb (msg_type parsed) "audio" then
          match msg_data parsed with
          | Some _ => handleAudioPlayback b now parsed s
          | None => log Received info s
          end
        else log Received info s in
      emit (OnMessageCallback parsed) s
  end.

(** *** Events *)

(** What the event loop delivers to the object. *)
Inductive Event :=
| SocketOpened
| SocketClosed (code : Z)
| SocketFailed
| TimerFired
| MessageReceived (now : Q) (d : MessageData).

(** The socket in [this.socket], if there is one, changes its ready
    state. *)
Definition setReadyState (r : ReadyState) (s : state) : state :=
  match socket s with
  | Some _ => set_socket (Some r) s
  | None => s
  end.

(** The socket changes its ready state, then its handler runs; a timer
    fires only if one is pending. *)
Definition step (b : Browser) (s : state) (e : Event) : state :=
  match e with
  | SocketOpened => onopen (setReadyState OPEN s)
  | SocketClosed code => onclose code (setReadyState CLOSED s)
  | SocketFailed => onerror s
  | TimerFired =>
      match pendingTimers s with
      | [] => s
      | _ :: rest => reconnectTimer b (set_pendingTimers rest s)
      end
  | MessageReceived now d => onmessage b now d s
  end.

Definition run (b : Browser) (s : state) (events : list Event) : state :=
  fold_left (step b) events s.

Definition sendAll (payloads : list OutgoingAudioPayload) (s : state)
  : state :=
  fold_left (fun s p => send p s) payloads s.

(** What happens to the object over time: its owner submits a frame with
    [send], or the event loop delivers an event. *)
Inductive Action :=
| Submit (payload : OutgoingAudioPayload)
| Deliver (e : Event).

Definition act (b : Browser) (s : state) (a : Action) : state :=
  match a with
  | Submit payload => send payload s
  | Deliver e => step b s e
  end.

Definition perform (b : Browser) (s : state) (actions : list Action)
  : state :=
  fold_left (act b) actions s.

(** The frames submitted in the course of [actions], oldest first. *)
Definition submitted (actions : list Action) : list OutgoingAudioPayload :=
  flat_map (fun a => match a with Submit p => [p] | Deliver _ => [] end)
           actions.

(** *** Vocabulary of the statements *)

(** An inbound audio message that the browser can play: its [data] decodes
    to the samples [float32], there is at least one, and the declared
    sample rate is accepted. *)
Definition playable (b : Browser) (m : ServerMessage) (float32 : list Q)
  : Prop :=
  msg_type m = "audio"%string /\
  (exists data, msg_data m = Some data /\ decodeSamples data = Some float32) /\
  float32 <> [] /\
  supportsSampleRate b (sampleRateOf m) = true.


(** The start time given to a buffer when the clock of the context reads
    [now] and the playback clock is [clock]. *)
Definition startTime (now clock : Q) : Q :=
  if ltb clock (now + (5 # 100)) then now + (1 # 10) else clock.

(** The playback clock as [ensurePlaybackContext] leaves it. *)
Definition clockAfterEnsure (now : Q) (s : state) : Q :=
  match playbackContext s with
  | Some running => playbackClock s
  | _ => now
  end.

(** The delays [reconnectDelay * k] for [k] from [from] on, [count] of
    them. *)
Definition retryDelays (from : Z) (count : nat) : list Z :=
  map (fun k => (reconnectDelay * (from + Z.of_nat k))%Z) (seq 0 count).

(** *** Instances used in examples *)

(** A browser page: [window] and [AudioContext] exist, buffers of one
    sample per second and more are accepted. *)
Definition page : Browser := {|
  hasWindow := true;
  hasAudioContextCtor := true;
  supportsSampleRate := fun r => Qle_bool 1 r
|}.

Definition frame (text : string) : OutgoingAudioPayload :=
  {| data := text; sample_rate := 16000; channels := 1 |}.

End VoiceSocket.

(** ** Capture Pipeline: component [AudioRecorder] *)

Module AudioRecorder.
Import JSNum.

(** *** Signal conditioning: the two loops of [processAudioChunk] *)

Definition noiseGateThreshold : Q := 15 # 1000.
Definition smoothingFactor : Q := 12 # 100.

(** One turn of the first loop:
    [smooth = prev + smoothingFactor * (raw - prev)]. *)
Definition smoothStep (prev raw : Q) : Q :=
  prev + smoothingFactor * (raw - prev).

(** The value stored in [denoised[i]]. *)
Definition gate (smooth : Q) : Q :=
  if ltb (Qabs smooth) noiseGateThreshold then 0 else smooth.

(** The first loop, [prev] being the loop-carried variable: the values
    written to [denoised]. *)
Fixpoint denoise (prev : Q) (channelData : list Q) : list Q :=
  match channelData with
  | [] => []
  | raw :: rest =>
      let smooth := smoothStep prev raw in
      gate smooth :: denoise smooth rest
  end.

(** The successive values of the local [smooth] in that loop. *)
Fixpoint smoothSeq (prev : Q) (channelData : list Q) : list Q :=
  match channelData with
  | [] => []
  | raw :: rest =>
      let smooth := smoothStep prev raw in
      smooth :: smoothSeq smooth rest
  end.

(** One turn of the second loop: the number assigned to [pcmData[i]], and
    the element the [Int16Array] then holds. *)
Definition clampSample (sample : Q) : Q :=
  Math_max (-32768) (Math_min 32767 (sample * 32768)).

Definition quantizeSample (sample : Q) : Z := toInt16 (clampSample sample).

Definition quantize (denoised : list Q) : list Z :=
  map quantizeSample denoised.

(** Both loops, from [channelData] to [pcmData] ([let prev = 0]). *)
Definition conditionSamples (channelData : list Q) : list Z :=
  quantize (denoise 0 channelData).


(** *** [encodePCMToBase64] *)

Definition chunkSize : nat := Z.to_nat 32768.

(** The [for] loop: [i] is the loop counter, [binary] the string built so
    far, [fuel] bounds the number of turns. *)
Fixpoint binaryLoop (fuel : nat) (uint8View : list Z) (i : nat)
    (binary : string) : string :=
  match fuel with
  | O => binary
  | S fuel' =>
      if (i <? List.length uint8View)%nat then
        let chunk := Platform.subarray uint8View i (i + chunkSize) in
        binaryLoop fuel' uint8View (i + chunkSize)
                   (binary ++ Platform.fromCharCode chunk)
      else binary
  end.

Definition encodePCMToBase64 (pcmData : list Z) : string :=
  let uint8View := Platform.uint8ViewOfInt16 pcmData in
  Platform.btoa (binaryLoop (List.length uint8View) uint8View 0 "").

(** *** The component *)

(** A chunk delivered by the recorder: its size in bytes, and what
    [decodeAudioData] makes of it, the samples of channel 0 or [None] when
    the promise is rejected. *)
Record Blob := {
  size : Z;
  decoded : option (list Q)
}.

(** The refs of the component that the pipeline reads and writes.
    [recorderRef] and [streamRef] tell whether the ref holds an object;
    [consoleErrors] counts the calls of [console.error]. *)
Record state := {
  isTransmittingRef : bool;
  recorderRef : bool;
  streamRef : bool;
  audioContextRef : option VoiceSocket.AudioContextState;
  chunksSentRef : Z;
  socketRef : option VoiceSocket.state;
  consoleErrors : nat
}.

Definition set_isTransmittingRef v (r : state) : state :=
  {| isTransmittingRef := v; recorderRef := recorderRef r;
     streamRef := streamRef r; audioContextRef := audioContextRef r;
     chunksSentRef := chunksSentRef r; socketRef := socketRef r;
     consoleErrors := consoleErrors r |}.

Definition set_recorderRef v (r : state) : state :=
  {| isTransmittingRef := isTransmittingRef r; recorderRef := v;
     streamRef := streamRef r; audioContextRef := audioContextRef r;
     chunksSentRef := chunksSentRef r; socketRef := socketRef r;
     consoleErrors := consoleErrors r |}.

Definition set_streamRef v (r : state) : state :=
  {| isTransmittingRef := isTransmittingRef r; recorderRef := recorderRef r;
     streamRef := v; audioContextRef := audioContextRef r;
     chunksSentRef := chunksSentRef r; socketRef := socketRef r;
     consoleErrors := consoleErrors r |}.

Definition set_audioContextRef v (r : state) : state :=
  {| isTransmittingRef := isTransmittingRef r; recorderRef := recorderRef r;
     streamRef := streamRef r; audioContextRef := v;
     chunksSentRef := chunksSentRef r; socketRef := socketRef r;
     consoleErrors := consoleErrors r |}.

Definition set_chunksSentRef v (r : state) : state :=
  {| isTransmittingRef := isTransmittingRef r; recorderRef := recorderRef r;
     streamRef := streamRef r; audioContextRef := audioContextRef r;
     chunksSentRef := v; socketRef := socketRef r;
     consoleErrors := consoleErrors r |}.

Definition set_socketRef v (r : state) : state :=
  {| isTransmittingRef := isTransmittingRef r; recorderRef := recorderRef r;
     streamRef := streamRef r; audioContextRef := audioContextRef r;
     chunksSentRef := chunksSentRef r; socketRef := v;
     consoleErrors := consoleErrors r |}.

Definition consoleError (r : state) : state :=
  {| isTransmittingRef := isTransmittingRef r; recorderRef := recorderRef r;
     streamRef := streamRef r; audioContextRef := audioContextRef r;
     chunksSentRef := chunksSentRef r; socketRef := socketRef r;
     consoleErrors := S (consoleErrors r) |}.

(** [socketRef.current?.isConnected()]. *)
Definition socketConnected (r : state) : bool :=
  match socketRef r with
  | Some vs => VoiceSocket.isConnected vs
  | None => false
  end.

(** [ensureAudioContext()]: the state after the call and whether a context
    was returned. *)
Definition ensureAudioContext (b : VoiceSocket.Browser) (r : state)
  : state * bool :=
  if negb (VoiceSocket.hasWindow b) then (r, false)
  else
    match audioContextRef r with
    | Some VoiceSocket.running => (r, true)
    | _ =>
        if negb (VoiceSocket.hasAudioContextCtor b) then (r, false)
        else (set_audioContextRef (Some VoiceSocket.running) r, true)
    end.

(** [stopTransmission()]. *)
Definition stopTransmission (r : state) : state :=
  set_chunksSentRef 0 (set_isTransmittingRef false r).

(** [stopRecording()]. *)
Definition stopRecording (r : state) : state :=
  set_audioContextRef None (set_streamRef false (set_recorderRef false r)).

(** The payload built from [pcmData]. *)
Definition audioPayload (pcmData : list Z) : VoiceSocket.OutgoingAudioPayload :=
  {| VoiceSocket.data := encodePCMToBase64 pcmData;
     VoiceSocket.sample_rate := 16000;
     VoiceSocket.channels := 1 |}.

(** [processAudioChunk(blob)] up to its first [await]: the state, and
    whether the function goes on to decode the chunk. *)
Definition processAudioChunk_begin (b : VoiceSocket.Browser) (blob : Blob)
    (r : state) : state * bool :=
  if negb (isTransmittingRef r) || negb (socketConnected r)
     || (size blob =? 0)%Z
  then (r, false)
  else ensureAudioContext b r.

(** [processAudioChunk(blob)] after [decodeAudioData] has settled, in the
    state the component then has.  The value of [computeRms] is only
    written to the console and is left out. *)
Definition processAudioChunk_resume (blob : Blob) (r : state) : state :=
  match decoded blob with
  | None => consoleError r
  | Some [] => r
  | Some channelData =>
      let pcmData := conditionSamples channelData in
      match socketRef r with
      | None => consoleError r
      | Some vs =>
          let r := set_socketRef
                     (Some (VoiceSocket.send (audioPayload pcmData) vs)) r in
          set_chunksSentRef (chunksSentRef r + 1) r
      end
  end.


(** *** Vocabulary of the statements *)



(** *** Instances used in examples *)

(** A component that is recording and transmitting over the transport
    [vs]. *)
Definition transmitting (vs : VoiceSocket.state) : state := {|
  isTransmittingRef := true;
  recorderRef := true;
  streamRef := true;
  audioContextRef := Some VoiceSocket.running;
  chunksSentRef := 0;
  socketRef := Some vs;
  consoleErrors := 0
|}.

(** A chunk of three samples. *)
Definition chunk : Blob := {|
  size := 44;
  decoded := Some [3 # 8; -2 # 1; 1 # 100]
|}.

(** An audio message built by the capture side from four samples and
    declared at four samples per second: one second of audio. *)
Definition oneSecond : VoiceSocket.ServerMessage := {|
  VoiceSocket.msg_type := "audio";
  VoiceSocket.msg_value := None;
  VoiceSocket.msg_data := Some (encodePCMToBase64 [0; 16384; -16384; 32767]%Z);
  VoiceSocket.msg_sample_rate := Some 4
|}.


(** An audio message whose [data] decodes to three bytes. *)
Definition threeBytes : VoiceSocket.ServerMessage := {|
  VoiceSocket.msg_type := "audio";
  VoiceSocket.msg_value := None;
  VoiceSocket.msg_data := Some "AAAA"%string;
  VoiceSocket.msg_sample_rate := None
|}.

End AudioRecorder.

(** ** The conditioning loops in IEEE-754 binary64

    The two loops of [processAudioChunk] once more, computed this time with
    the binary64 operations of JavaScript numbers and with the narrowing to
    binary32 of the [Float32Array] stores.  This version only serves to
    evaluate the loops at given inputs and to compare the outcome with
    [AudioRecorder.conditionSamples]. *)

Module Binary64.
Import PrimFloat FloatOps SpecFloat.

#[local] Set Warnings "-inexact-float".

(** [Math.fround]: the nearest binary32 number. *)
Definition fround (x : float) : float :=
  match Prim2SF x with
  | S754_finite s m e =>
      SF2Prim (binary_normalize 24 128 (if s then Zneg m else Zpos m) e s)
  | _ => x
  end.

(** The integer part of a finite number, towards zero; 0 for a number that
    is not finite. *)
Definition trunc (x : float) : Z :=
  match Prim2SF x with
  | S754_finite s m e =>
      let n := match e with
               | Zneg p => Z.shiftr (Zpos m) (Zpos p)
               | _ => Z.shiftl (Zpos m) e
               end in
      if s then Z.opp n else n
  | _ => 0%Z
  end.

Definition toInt16 (x : float) : Z :=
  let m := (trunc x mod 65536)%Z in
  if (32768 <=? m)%Z then (m - 65536)%Z else m.

Definition Math_max (a b : float) : float :=
  if (is_nan a || is_nan b)%bool then nan
  else if PrimFloat.leb a b then b else a.

Definition Math_min (a b : float) : float :=
  if (is_nan a || is_nan b)%bool then nan
  else if PrimFloat.leb a b then a else b.

Definition noiseGateThreshold : float := 0.015%float.
Definition smoothingFactor : float := 0.12%float.

Definition smoothStep (prev raw : float) : float :=
  (prev + smoothingFactor * (raw - prev))%float.

Definition gate (smooth : float) : float :=
  if PrimFloat.ltb (abs smooth) noiseGateThreshold then 0%float else smooth.

(** [denoised] is a [Float32Array]: each store narrows. *)
Fixpoint denoise (prev : float) (channelData : list float) : list float :=
  match channelData with
  | [] => []
  | raw :: rest =>
      let smooth := smoothStep prev raw in
      fround (gate smooth) :: denoise smooth rest
  end.

Definition clampSample (sample : float) : float :=
  Math_max (-32768)%float (Math_min 32767%float (sample * 32768)%float).

Definition quantizeSample (sample : float) : Z :=
  toInt16 (clampSample sample).

(** [channelData] is a [Float32Array] too: its elements are binary32
    numbers. *)
Definition conditionSamples (channelData : list float) : list Z :=
  map quantizeSample (denoise 0%float (map fround channelData)).

End Binary64.

(** ** Further vocabulary for the transport and the playback *)

Module Session.
Import VoiceSocket.

(** The socket in [this.socket] can still produce events. *)
Definition live (s : state) : bool :=
  match socket s with
  | Some CONNECTING | Some OPEN | Some CLOSING => true
  | _ => false
  end.

(** The events the event loop can deliver in state [s], after the
    WebSocket and timer standards: a socket opens once, while connecting;
    it closes or fails once, while it is not closed yet; a message arrives
    on an open socket; a timer fires if one is pending. *)
Definition enabled (s : state) (e : Event) : bool :=
  match e with
  | SocketOpened =>
      match socket s with
      | Some CONNECTING => true
      | _ => false
      end
  | SocketClosed _ => live s
  | SocketFailed => live s
  | TimerFired =>
      match pendingTimers s with
      | [] => false
      | _ :: _ => true
      end
  | MessageReceived _ _ => isConnected s
  end.

(** Every event of the run is enabled when it is delivered. *)
Fixpoint enabledRun (b : Browser) (s : state) (events : list Event) : Prop :=
  match events with
  | [] => True
  | e :: rest => enabled s e = true /\ enabledRun b (step b s e) rest
  end.

(** The retry counter stays within the budget and at most one timer is
    pending, the socket being closed while it is. *)
Definition budgetKept (s : state) : Prop :=
  (0 <= reconnectAttempts s <= maxReconnectAttempts)%Z /\
  (pendingTimers s = [] \/
   (exists d, pendingTimers s = [d]) /\ socket s = Some CLOSED /\
   (reconnectAttempts s < maxReconnectAttempts)%Z).

(** The messages passed to the [onMessage] observer and the values passed
    to the [onState] observer, oldest first. *)
Definition forwarded (s : state) : list ServerMessage :=
  flat_map (fun e => match e with OnMessageCallback m => [m] | _ => [] end)
           (effects s).

Definition stateValues (s : state) : list string :=
  flat_map (fun e => match e with OnStateCallback v => [v] | _ => [] end)
           (effects s).

(** What a parsed message makes the [onState] observer receive. *)
Definition stateValueOf (m : ServerMessage) : list string :=
  if String.eqb (msg_type m) "state" then
    match msg_value m with
    | Some (String c v) => [String c v]
    | _ => []
    end
  else [].

(** The stretch of output time of every buffer started: from the time
    given to [source.start] to that time plus the duration of the buffer. *)
Definition intervals (s : state) : list (Q * Q) :=
  flat_map (fun e =>
              match e with
              | SourceStart t samples rate =>
                  [(t, t + inject_Z (Z.of_nat (List.length samples)) / rate)]
              | _ => []
              end)
           (effects s).

(** Each stretch begins no earlier than the one before it ends. *)
Fixpoint chained (ivs : list (Q * Q)) : Prop :=
  match ivs with
  | [] => True
  | iv :: rest =>
      match rest with
      | [] => True
      | next :: _ => snd iv <= fst next
      end /\ chained rest
  end.

(** The stretches started so far follow one another, and the playback
    clock stands at the end of the last one. *)
Definition playbackTidy (s : state) : Prop :=
  chained (intervals s) /\
  (intervals s <> [] ->
   playbackContext s = Some running /\
   snd (last (intervals s) (0, 0)) = playbackClock s).

Definition isMessage (e : Event) : bool :=
  match e with
  | MessageReceived _ _ => true
  | _ => false
  end.

(** The rounds of [codes]: each close followed by the timer it sets. *)
Definition rounds (codes : list Z) : list Event :=
  flat_map (fun code => [SocketClosed code; TimerFired]) codes.

End Session.

(** ** Further vocabulary for the codec and the conditioner *)

Module Terms.
Import JSNum.

(** The 16-bit integers read through a [DataView], low byte first, from the
    successive pairs of [bytes] (a last single byte is not read). *)
Fixpoint int16View (bytes : list Z) : list Z :=
  match bytes with
  | lo :: hi :: rest =>
      let u := (lo + 256 * hi)%Z in
      (if (32768 <=? u)%Z then u - 65536 else u)%Z :: int16View rest
  | _ => []
  end.

(** The value of [prev] when the first loop of the conditioner has gone
    through [channelData]. *)
Definition finalSmooth (prev : Q) (channelData : list Q) : Q :=
  fold_left AudioRecorder.smoothStep channelData prev.

(** [c] multiplied [k] times by [1 - smoothingFactor]. *)
Fixpoint decayed (c : Q) (k : nat) : Q :=
  match k with
  | O => c
  | S k' => decayed (c * (1 - AudioRecorder.smoothingFactor)) k'
  end.

End Terms.

(** * The component's side of a connection

    [connectSocket] of [AudioRecorder.tsx] wraps a [VoiceSocket] in a
    promise and registers its handlers with [onOpen], [onClose], [onError]
    and [onState]; [handleConnect] of [page.tsx] awaits that promise.  The
    handlers run synchronously inside the handlers of the transport, which
    the trace of the transport records as its callback effects; the
    continuation of [handleConnect] runs when the promise is settled, before
    the next event.  The calls of [addMessage] only write to the message
    panel and are treated in [MessageLog]. *)
Module Connection.

(** Why the promise was rejected: [onClose] before the connection was
    established, or [onError]. *)
Inductive Reason :=
| ClosedBeforeEstablishing (code : Z)
| SocketError.

Inductive Promise := pending | fulfilled | rejected (reason : Reason).

(** [settled] is the variable of the promise executor, [recorder] the refs
    of the component; [voiceConnected], [isConnecting] and [connectError]
    are the state of the page. *)
Record state := {
  settled : bool;
  promise : Promise;
  connectInFlightRef : bool;
  connectedRef : bool;
  status : string;
  recorder : AudioRecorder.state;
  voiceConnected : bool;
  isConnecting : bool;
  connectError : option Reason
}.

(** [resolve()]: a promise is settled once; its [finally] then clears
    [connectInFlightRef] and [handleConnect] goes on after its [await]. *)
Definition resolve (c : state) : state :=
  match promise c with
  | pending =>
      {| settled := settled c; promise := fulfilled;
         connectInFlightRef := false;
         connectedRef := connectedRef c; status := status c;
         recorder := recorder c;
         voiceConnected := true; isConnecting := false;
         connectError := connectError c |}
  | _ => c
  end.

(** [reject(new Error(...))]: the same, and [handleConnect] goes on in its
    [catch]. *)
Definition reject (reason : Reason) (c : state) : state :=
  match promise c with
  | pending =>
      {| settled := settled c; promise := rejected reason;
         connectInFlightRef := false;
         connectedRef := connectedRef c; status := status c;
         recorder := recorder c;
         voiceConnected := false; isConnecting := false;
         connectError := Some reason |}
  | _ => c
  end.

(** The function given to [socket.onOpen]. *)
Definition onOpen (c : state) : state :=
  resolve
    {| settled := true; promise := promise c;
       connectInFlightRef := false; connectedRef := true;
       status := "Connected"; recorder := recorder c;
       voiceConnected := true; isConnecting := isConnecting c;
       connectError := connectError c |}.

(** The function given to [socket.onClose]. *)
Definition onClose (code : Z) (c : state) : state :=
  let c' :=
    {| settled := true; promise := promise c;
       connectInFlightRef := false; connectedRef := false;
       status := "Disconnected";
       recorder := AudioRecorder.stopRecording
                     (AudioRecorder.stopTransmission (recorder c));
       voiceConnected := false; isConnecting := isConnecting c;
       connectError := connectError c |} in
  if negb (settled c) then reject (ClosedBeforeEstablishing code) c' else c'.

(** The function given to [socket.onError]. *)
Definition onError (c : state) : state :=
  let c' :=
    {| settled := settled c; promise := promise c;
       connectInFlightRef := connectInFlightRef c;
       connectedRef := connectedRef c;
       status := "Error"; recorder := recorder c;
       voiceConnected := voiceConnected c; isConnecting := isConnecting c;
       connectError := connectError c |} in
  if negb (settled c)
  then reject SocketError
         {| settled := true; promise := promise c';
            connectInFlightRef := false; connectedRef := connectedRef c';
            status := status c'; recorder := recorder c';
            voiceConnected := voiceConnected c';
            isConnecting := isConnecting c';
            connectError := connectError c' |}
  else c'.

(** The function given to [socket.onState]: [setStatus(value || "Unknown")]. *)
Definition onState (value : string) (c : state) : state :=
  {| settled := settled c; promise := promise c;
     connectInFlightRef := connectInFlightRef c;
     connectedRef := connectedRef c;
     status := match value with EmptyString => "Unknown" | _ => value end;
     recorder := recorder c;
     voiceConnected := voiceConnected c; isConnecting := isConnecting c;
     connectError := connectError c |}.

(** What one effect of the transport does to the component. *)
Definition handle (c : state) (e : VoiceSocket.Effect) : state :=
  match e with
  | VoiceSocket.OnOpenCallback => onOpen c
  | VoiceSocket.OnCloseCallback code => onClose code c
  | VoiceSocket.OnErrorCallback => onError c
  | VoiceSocket.OnStateCallback value => onState value c
  | _ => c
  end.

Definition observe (trace : list VoiceSocket.Effect) (c : state) : state :=
  fold_left handle trace c.

(** *** Vocabulary of the statements *)

Definition isLifecycle (e : VoiceSocket.Effect) : bool :=
  match e with
  | VoiceSocket.OnOpenCallback | VoiceSocket.OnCloseCallback _
  | VoiceSocket.OnErrorCallback => true
  | _ => false
  end.

Definition isOpen (e : VoiceSocket.Effect) : bool :=
  match e with VoiceSocket.OnOpenCallback => true | _ => false end.

Definition isClose (e : VoiceSocket.Effect) : bool :=
  match e with VoiceSocket.OnCloseCallback _ => true | _ => false end.

(** What the first of the callbacks [onOpen], [onClose] and [onError]
    makes of a pending promise. *)
Definition verdict (first : option VoiceSocket.Effect) : Promise :=
  match first with
  | Some VoiceSocket.OnOpenCallback => fulfilled
  | Some (VoiceSocket.OnCloseCallback code) =>
      rejected (ClosedBeforeEstablishing code)
  | Some VoiceSocket.OnErrorCallback => rejected SocketError
  | _ => pending
  end.

Definition reasonOf (p : Promise) : option Reason :=
  match p with rejected reason => Some reason | _ => None end.

(** *** Instances used in examples *)

(** The component and the page after [handleConnect] has called
    [connectSocket] for the first time. *)
Definition connecting (r : AudioRecorder.state) : state := {|
  settled := false;
  promise := pending;
  connectInFlightRef := true;
  connectedRef := false;
  status := "Connecting";
  recorder := r;
  voiceConnected := false;
  isConnecting := true;
  connectError := None
|}.

End Connection.

(** * The message panel and the transcript *)
Module MessageLog.

Record Message := {
  id : Z;
  text : string;
  level : VoiceSocket.LogLevel
}.

(** The function that [addMessage] gives to [setMessages]; [entry] is the
    object it builds. *)
Definition addMessage (prev : list Message) (entry : Message)
  : list Message :=
  entry :: firstn 99 prev.

Definition addMessages (entries : list Message) (prev : list Message)
  : list Message :=
  fold_left addMessage entries prev.

End MessageLog.

Module Transcript.

Section Frames.

(** The value of [JSON.parse]; [None] when it throws. *)
Variable TranscriptMessages : Type.
Variable JSON_parse : string -> option TranscriptMessages.

(** The [onmessage] handler of [TranscriptSocket] with the callback that
    [useTranscriptStream] registers, [setMessages(messages)], on the state
    [messages] of the hook; [data] is the text of the frame. *)
Definition onmessage (messages : TranscriptMessages) (data : string)
  : TranscriptMessages :=
  match data with
  | EmptyString => messages
  | _ =>
      match JSON_parse data with
      | Some parsed => parsed
      | None => messages
      end
  end.

Definition receive (frames : list string) (messages : TranscriptMessages)
  : TranscriptMessages :=
  fold_left onmessage frames messages.

(** A frame that replaces the transcript. *)
Definition wellFormed (data : string) : bool :=
  match data with
  | EmptyString => false
  | _ => match JSON_parse data with Some _ => true | None => false end
  end.

End Frames.

End Transcript.

(** * Properties *)

(** ** Numbers *)

Section NumberFacts.
Import JSNum.

Lemma ltb_lt (x y : Q) : ltb x y = true <-> x < y.
Proof.
  unfold ltb. rewrite negb_true_iff. split.
  - intros H. apply Qnot_le_lt. intros Hle.
    apply Qle_bool_iff in Hle. congruence.
  - intros H. destruct (Qle_bool y x) eqn:E; trivial.
    apply Qle_bool_iff in E. exfalso. exact (Qlt_not_le _ _ H E).
Qed.

Lemma ltb_ge (x y : Q) : ltb x y = false <-> y <= x.
Proof.
  unfold ltb. rewrite negb_false_iff. apply Qle_bool_iff.
Qed.

Lemma Math_max_spec (a b : Q) :
  (a <= b /\ Math_max a b = b) \/ (b <= a /\ Math_max a b = a).
Proof.
  unfold Math_max. destruct (Qle_bool a b) eqn:E.
  - left. split; trivial. now apply Qle_bool_iff.
  - right. split; trivial. apply Qlt_le_weak, ltb_lt.
    unfold ltb. now rewrite E.
Qed.

Lemma Math_min_spec (a b : Q) :
  (a <= b /\ Math_min a b = a) \/ (b <= a /\ Math_min a b = b).
Proof.
  unfold Math_min. destruct (Qle_bool a b) eqn:E.
  - left. split; trivial. now apply Qle_bool_iff.
  - right. split; trivial. apply Qlt_le_weak, ltb_lt.
    unfold ltb. now rewrite E.
Qed.

(** Truncation keeps a number between two integers of opposite signs. *)
Lemma trunc_bounds (x : Q) (lo hi : Z) :
  (lo <= 0)%Z -> (0 <= hi)%Z ->
  inject_Z lo <= x -> x <= inject_Z hi -> (lo <= trunc x <= hi)%Z.
Proof.
  intros Hlo Hhi Hl Hh. destruct x as [n d]. unfold trunc, Qle in *.
  simpl in *. rewrite Z.mul_1_r in Hl, Hh.
  destruct (Z_lt_le_dec n 0) as [Hn | Hn].
  - split.
    + rewrite <- (Z.opp_involutive n), Z.quot_opp_l by lia.
      assert (H : (- n / Zpos d <= - lo)%Z).
      { apply Z.div_le_upper_bound; lia. }
      rewrite Z.quot_div_nonneg by lia. lia.
    + pose proof (Z.quot_opp_l n (Zpos d) ltac:(lia)) as E.
      assert (0 <= Z.quot (- n) (Zpos d))%Z by (apply Z.quot_pos; lia).
      lia.
  - rewrite Z.quot_div_nonneg by lia. split.
    + assert (0 <= n / Zpos d)%Z by (apply Z.div_pos; lia). lia.
    + apply Z.div_le_upper_bound; lia.
Qed.

(** An [Int16Array] store does not wrap when the truncated number fits. *)
Lemma toInt16_small (x : Q) :
  in_int16 (trunc x) -> toInt16 x = trunc x.
Proof.
  unfold in_int16, toInt16. intros H. cbv zeta.
  destruct (Z_lt_le_dec (trunc x) 0) as [Hn | Hn].
  - replace (trunc x mod 65536)%Z with (trunc x + 65536)%Z.
    + destruct (Z.leb_spec 32768 (trunc x + 65536)); lia.
    + apply Z.mod_unique with (q := (-1)%Z); lia.
  - rewrite Z.mod_small by lia.
    destruct (Z.leb_spec 32768 (trunc x)); lia.
Qed.

End NumberFacts.

(** ** Signal Conditioner *)

Section ConditionerFacts.
Import JSNum AudioRecorder.

Lemma denoise_length prev cd : length (denoise prev cd) = length cd.
Proof. revert prev. induction cd; simpl; intros; auto. Qed.


Lemma denoise_gate prev cd : denoise prev cd = map gate (smoothSeq prev cd).
Proof.
  revert prev. induction cd as [| raw rest IH]; simpl; intros; trivial.
  now rewrite IH.
Qed.

Lemma conditionSamples_length cd : length (conditionSamples cd) = length cd.
Proof.
  unfold conditionSamples, quantize. now rewrite length_map, denoise_length.
Qed.



Lemma clampSample_range sample :
  inject_Z (-32768) <= clampSample sample /\
  clampSample sample <= inject_Z 32767.
Proof.
  unfold clampSample.
  destruct (Math_min_spec 32767 (sample * 32768)) as [[H1 E1] | [H1 E1]];
    rewrite E1;
    match goal with
    | |- context [Math_max ?a ?b] =>
        destruct (Math_max_spec a b) as [[H2 E2] | [H2 E2]]; rewrite E2
    end; split; try assumption; try apply Qle_refl;
    try (eapply Qle_trans; eassumption); try (compute; discriminate).
Qed.

Lemma quantizeSample_trunc sample :
  quantizeSample sample = trunc (clampSample sample) /\
  in_int16 (quantizeSample sample).
Proof.
  destruct (clampSample_range sample) as [Hl Hh].
  assert (H : in_int16 (trunc (clampSample sample))).
  { apply trunc_bounds; trivial; lia. }
  unfold quantizeSample. rewrite toInt16_small by exact H. now split.
Qed.

(** The smoothing step is a convex combination of [prev] and [raw]. *)
Lemma smoothStep_below prev raw :
  Qabs prev < noiseGateThreshold -> Qabs raw < noiseGateThreshold ->
  Qabs (smoothStep prev raw) < noiseGateThreshold.
Proof.
  unfold smoothStep, smoothingFactor, noiseGateThreshold.
  intros Hp Hr.
  apply Qabs_Qlt_condition in Hp. apply Qabs_Qlt_condition in Hr.
  apply Qabs_Qlt_condition. split; lra.
Qed.

Lemma gate_below smooth :
  Qabs smooth < noiseGateThreshold -> gate smooth = 0.
Proof.
  intros H. unfold gate. apply ltb_lt in H. now rewrite H.
Qed.

Lemma denoise_below prev cd :
  Qabs prev < noiseGateThreshold ->
  Forall (fun raw => Qabs raw < noiseGateThreshold) cd ->
  denoise prev cd = repeat 0 (length cd).
Proof.
  intros Hp Hcd. revert prev Hp.
  induction Hcd as [| raw rest Hraw _ IH]; simpl; intros prev Hp; trivial.
  pose proof (smoothStep_below _ _ Hp Hraw) as Hs.
  rewrite (gate_below _ Hs), (IH _ Hs). reflexivity.
Qed.




(** C7: when every sample of the chunk is below the noise-gate threshold
    0.015 in magnitude, every quantized sample is 0. *)
Theorem C7_below_threshold_gives_silence (channelData : list Q) :
  Forall (fun raw => Qabs raw < noiseGateThreshold) channelData ->
  conditionSamples channelData = repeat 0%Z (length channelData).
Proof.
  intros H. unfold conditionSamples.
  rewrite denoise_below; trivial.
  - unfold quantize. induction (length channelData) as [| n IH]; simpl.
    + reflexivity.
    + now rewrite IH.
  - reflexivity.
Qed.

Lemma C7_below_threshold_gives_silence_witness :
  conditionSamples [1 # 100; -14 # 1000; 149 # 10000] = [0; 0; 0]%Z.
Proof.
  apply (C7_below_threshold_gives_silence [1 # 100; -14 # 1000; 149 # 10000]).
  repeat constructor.
Defined.

End ConditionerFacts.

Section Binary64Facts.
Import PrimFloat.

#[local] Set Warnings "-inexact-float".

(** The outcome in binary64 at the inputs of the examples above: the same
    samples as in exact arithmetic. *)
Lemma binary64_examples :
  Binary64.conditionSamples [0.375%float]
    = AudioRecorder.conditionSamples [3 # 8] /\
  Binary64.conditionSamples [0.375; -2; 0.01]%float
    = AudioRecorder.conditionSamples [3 # 8; -2 # 1; 1 # 100] /\
  Binary64.conditionSamples [0.01; -0.014; 0.0149]%float
    = AudioRecorder.conditionSamples [1 # 100; -14 # 1000; 149 # 10000].
Proof. repeat split; vm_compute; reflexivity. Qed.

End Binary64Facts.

(** ** Frame Codec *)

Section Base64Facts.
Import Platform.

Lemma codeOfChar_byte c : is_byte (codeOfChar c).
Proof.
  unfold is_byte, codeOfChar. pose proof (N_ascii_bounded c). lia.
Qed.

Lemma codeOfChar_charOfCode b : is_byte b -> codeOfChar (charOfCode b) = b.
Proof.
  unfold is_byte, codeOfChar, charOfCode. intros H.
  rewrite N_ascii_embedding by lia. lia.
Qed.

Lemma charOfCode_codeOfChar c : charOfCode (codeOfChar c) = c.
Proof.
  unfold codeOfChar, charOfCode. rewrite N2Z.id. apply ascii_N_embedding.
Qed.

Lemma charCodes_fromCharCode bytes :
  Forall is_byte bytes -> charCodes (fromCharCode bytes) = bytes.
Proof.
  unfold charCodes, fromCharCode. intros H.
  rewrite list_ascii_of_string_of_list_ascii, map_map.
  induction H as [| b rest Hb _ IH]; simpl; trivial.
  now rewrite codeOfChar_charOfCode, IH.
Qed.

Lemma fromCharCode_charCodes s : fromCharCode (charCodes s) = s.
Proof.
  unfold charCodes, fromCharCode. rewrite map_map.
  rewrite (map_ext _ (fun c => c)) by apply charOfCode_codeOfChar.
  rewrite map_id. apply string_of_list_ascii_of_string.
Qed.

Lemma charCodes_bytes s : Forall is_byte (charCodes s).
Proof.
  unfold charCodes. apply Forall_forall. intros b Hb.
  apply in_map_iff in Hb. destruct Hb as (c & <- & _).
  apply codeOfChar_byte.
Qed.

Lemma string_of_list_ascii_app l1 l2 :
  string_of_list_ascii (l1 ++ l2) =
  (string_of_list_ascii l1 ++ string_of_list_ascii l2)%string.
Proof. induction l1 as [| c l1 IH]; simpl; trivial. now rewrite IH. Qed.

Lemma string_of_list_ascii_length l :
  String.length (string_of_list_ascii l) = length l.
Proof. induction l as [| c l IH]; simpl; trivial. now rewrite IH. Qed.

(** Induction on a list three elements at a time. *)
Lemma list_ind3 (A : Type) (P : list A -> Prop) :
  P [] -> (forall a, P [a]) -> (forall a b, P [a; b]) ->
  (forall a b c rest, P rest -> P (a :: b :: c :: rest)) ->
  forall l, P l.
Proof.
  intros H0 H1 H2 H3.
  assert (H : forall l, P l /\ (forall a, P (a :: l)) /\
                        (forall a b, P (a :: b :: l))).
  { induction l as [| x l (IHa & IHb & IHc)].
    - auto.
    - repeat split; auto. }
  intros l. apply H.
Qed.

(** The sixty-four characters of the alphabet, checked one by one. *)
Lemma alphabet_checked :
  forallb (fun k =>
             let c := b64char (Z.of_nat k) in
             match b64value c with
             | Some v => (v =? Z.of_nat k)%Z
             | None => false
             end && negb (isPad c) && negb (isAsciiWhitespace c))
          (seq 0 64) = true.
Proof. vm_compute. reflexivity. Qed.

Lemma b64char_facts v :
  is_sextet v ->
  b64value (b64char v) = Some v /\ isPad (b64char v) = false /\
  isAsciiWhitespace (b64char v) = false.
Proof.
  intros Hv. pose proof alphabet_checked as H.
  rewrite forallb_forall in H. specialize (H (Z.to_nat v)).
  unfold is_sextet in Hv.
  rewrite Z2Nat.id in H by lia.
  assert (Hin : In (Z.to_nat v) (seq 0 64)) by (apply in_seq; lia).
  apply H in Hin. cbv zeta in Hin.
  apply andb_true_iff in Hin. destruct Hin as [Hin Hw].
  apply andb_true_iff in Hin. destruct Hin as [Hval Hp].
  apply negb_true_iff in Hw. apply negb_true_iff in Hp.
  destruct (b64value (b64char v)) as [w |]; [| discriminate].
  apply Z.eqb_eq in Hval. subst w. auto.
Qed.

Lemma sextets_range bytes :
  Forall is_byte bytes -> Forall is_sextet (sextets bytes).
Proof.
  unfold is_byte, is_sextet.
  induction bytes as [| | a b | a b c rest IH] using list_ind3; intros H.
  - constructor.
  - inversion_clear H. simpl. repeat constructor;
      Z.to_euclidean_division_equations; lia.
  - inversion_clear H as [| ? ? Ha H']. inversion_clear H' as [| ? ? Hb _].
    simpl. repeat constructor; Z.to_euclidean_division_equations; lia.
  - inversion_clear H as [| ? ? Ha H']. inversion_clear H' as [| ? ? Hb H''].
    inversion_clear H'' as [| ? ? Hc Hrest].
    simpl. repeat (constructor; [Z.to_euclidean_division_equations; lia |]).
    now apply IH.
Qed.

(** Regrouping the 6-bit values gives the bytes back. *)
Lemma bytesOfValues_sextets bytes :
  Forall is_byte bytes -> bytesOfValues (sextets bytes) = bytes.
Proof.
  unfold is_byte.
  induction bytes as [| | a b | a b c rest IH] using list_ind3; intros H.
  - reflexivity.
  - inversion_clear H. simpl. f_equal.
    Z.to_euclidean_division_equations; lia.
  - inversion_clear H as [| ? ? Ha H']. inversion_clear H' as [| ? ? Hb _].
    simpl. repeat f_equal; Z.to_euclidean_division_equations; lia.
  - inversion_clear H as [| ? ? Ha H']. inversion_clear H' as [| ? ? Hb H''].
    inversion_clear H'' as [| ? ? Hc Hrest].
    simpl. rewrite (IH Hrest).
    repeat f_equal; Z.to_euclidean_division_equations; lia.
Qed.

Lemma padding_step n : padding (S (S (S n))) = padding n.
Proof.
  unfold padding. replace (S (S (S n))) with (n + 1 * 3)%nat by lia.
  now rewrite Nat.Div0.mod_add.
Qed.

(** The encoded text has a length that is a multiple of four, and the
    number of its 6-bit values is never one more than such a multiple. *)
Lemma sextets_length bytes :
  Nat.modulo (length (sextets bytes) + length (padding (length bytes))) 4
  = 0%nat /\
  Nat.modulo (length (sextets bytes)) 4 <> 1%nat.
Proof.
  induction bytes as [| | a b | a b c rest [IH1 IH2]] using list_ind3.
  - split; [reflexivity | discriminate].
  - split; [reflexivity | discriminate].
  - split; [reflexivity | discriminate].
  - change (length (a :: b :: c :: rest)) with (S (S (S (length rest)))).
    rewrite padding_step. simpl sextets. simpl length.
    replace (S (S (S (S (length (sextets rest))))) +
             length (padding (length rest)))%nat
      with (length (sextets rest) + length (padding (length rest)) + 1 * 4)%nat
      by lia.
    replace (S (S (S (S (length (sextets rest))))))
      with (length (sextets rest) + 1 * 4)%nat by lia.
    now rewrite !Nat.Div0.mod_add.
Qed.

Lemma padding_cases n :
  padding n = [] \/ padding n = [padChar] \/ padding n = [padChar; padChar].
Proof.
  unfold padding. destruct (Nat.modulo n 3) as [| [| [| k]]]; auto.
Qed.

Lemma valuesOf_b64char values :
  Forall is_sextet values -> valuesOf (map b64char values) = Some values.
Proof.
  induction 1 as [| v rest Hv _ IH]; simpl; trivial.
  destruct (b64char_facts v Hv) as (E & _ & _). now rewrite E, IH.
Qed.

Lemma filter_whitespace_encoded values n :
  Forall is_sextet values ->
  filter (fun c => negb (isAsciiWhitespace c))
         (map b64char values ++ padding n)
  = map b64char values ++ padding n.
Proof.
  intros H. rewrite filter_app. f_equal.
  - induction H as [| v rest Hv _ IH]; simpl; trivial.
    destruct (b64char_facts v Hv) as (_ & _ & E). rewrite E. simpl.
    now rewrite IH.
  - destruct (padding_cases n) as [E | [E | E]]; rewrite E; reflexivity.
Qed.

Lemma stripPadding_encoded values n :
  Forall is_sextet values ->
  Nat.modulo (length values + length (padding n)) 4 = 0%nat ->
  stripPadding (map b64char values ++ padding n) = map b64char values.
Proof.
  intros Hv Hlen. unfold stripPadding.
  rewrite length_app, length_map, Hlen. simpl Nat.eqb. cbv iota.
  rewrite rev_app_distr.
  assert (Hlast : forall c r, rev (map b64char values) = c :: r ->
                              isPad c = false).
  { intros c r E.
    assert (Hin : In c (map b64char values)).
    { apply in_rev. rewrite E. now left. }
    apply in_map_iff in Hin. destruct Hin as (v & <- & Hin).
    rewrite Forall_forall in Hv. now apply b64char_facts, Hv. }
  destruct (padding_cases n) as [E | [E | E]]; rewrite E; simpl rev;
    simpl app.
  - rewrite app_nil_r.
    destruct (rev (map b64char values)) as [| c1 [| c2 r]] eqn:R; trivial;
      now rewrite (Hlast _ _ eq_refl).
  - destruct (rev (map b64char values)) as [| c2 r] eqn:R.
    + apply (f_equal (@rev ascii)) in R. rewrite rev_involutive in R.
      rewrite R. reflexivity.
    + change (isPad padChar) with true. cbv iota.
      rewrite (Hlast _ _ eq_refl).
      change (rev (c2 :: r) = map b64char values).
      rewrite <- R. apply rev_involutive.
  - change (isPad padChar) with true. cbv iota. apply rev_involutive.
Qed.

(** Decoding an encoded byte sequence gives the sequence back. *)
Lemma base64Decode_encode bytes :
  Forall is_byte bytes ->
  base64Decode (list_ascii_of_string (base64Encode bytes)) = Some bytes.
Proof.
  intros H. unfold base64Decode, base64Encode.
  pose proof (sextets_range bytes H) as Hs.
  destruct (sextets_length bytes) as [L1 L2].
  rewrite list_ascii_of_string_of_list_ascii.
  rewrite filter_whitespace_encoded by exact Hs.
  rewrite stripPadding_encoded by assumption.
  rewrite length_map.
  destruct (Nat.eqb_spec (Nat.modulo (length (sextets bytes)) 4) 1);
    [contradiction |].
  rewrite valuesOf_b64char by exact Hs. simpl.
  now rewrite bytesOfValues_sextets.
Qed.

Lemma atob_btoa binary : atob (btoa binary) = Some binary.
Proof.
  unfold atob, btoa.
  rewrite base64Decode_encode by apply charCodes_bytes.
  simpl. now rewrite fromCharCode_charCodes.
Qed.

End Base64Facts.

Section CodecRoundTrip.
Import JSNum Platform AudioRecorder VoiceSocket.

Lemma chunkSize_pos : (0 < chunkSize)%nat.
Proof. unfold chunkSize. lia. Qed.

(** The chunked loop builds the string of all the bytes of the view. *)
Lemma binaryLoop_all fuel view i acc :
  (length view - i <= fuel)%nat ->
  binaryLoop fuel view i (string_of_list_ascii acc) =
  string_of_list_ascii (acc ++ map charOfCode (skipn i view)).
Proof.
  pose proof chunkSize_pos as Hc. revert i acc.
  induction fuel as [| fuel IH]; intros i acc Hf.
  - rewrite skipn_all2 by lia. simpl. now rewrite app_nil_r.
  - cbn [binaryLoop].
    destruct (Nat.ltb_spec i (length view)) as [Hi | Hi].
    + unfold fromCharCode, subarray.
      rewrite <- string_of_list_ascii_app, IH by lia.
      f_equal. rewrite <- app_assoc. f_equal.
      replace (i + chunkSize - i)%nat with chunkSize by lia.
      rewrite <- map_app. f_equal.
      rewrite Nat.add_comm, <- skipn_skipn. apply firstn_skipn.
    + rewrite skipn_all2 by lia. simpl. now rewrite app_nil_r.
Qed.

Lemma int16Bytes_bytes s : Forall is_byte (int16Bytes s).
Proof.
  unfold int16Bytes, is_byte. repeat constructor;
    Z.to_euclidean_division_equations; lia.
Qed.

Lemma uint8View_bytes pcm : Forall is_byte (uint8ViewOfInt16 pcm).
Proof.
  unfold uint8ViewOfInt16. induction pcm as [| s rest IH]; simpl.
  - constructor.
  - pose proof (int16Bytes_bytes s) as H. unfold int16Bytes in H.
    inversion_clear H as [| ? ? H1 H']. inversion_clear H' as [| ? ? H2 _].
    constructor; [exact H1 | constructor; [exact H2 | exact IH]].
Qed.

Lemma uint8View_length pcm :
  length (uint8ViewOfInt16 pcm) = (2 * length pcm)%nat.
Proof.
  unfold uint8ViewOfInt16. induction pcm as [| s rest IH]; simpl; lia.
Qed.

(** The binary string handed to [btoa] holds the bytes of the samples. *)
Lemma binary_of_pcm pcm :
  encodePCMToBase64 pcm = btoa (fromCharCode (uint8ViewOfInt16 pcm)).
Proof.
  unfold encodePCMToBase64. cbv zeta. f_equal.
  change EmptyString with (string_of_list_ascii []).
  rewrite binaryLoop_all by lia. reflexivity.
Qed.

Lemma nth_after_prefix (pre post : list Z) (a b : Z) :
  nth (length pre) (pre ++ a :: b :: post) 0%Z = a /\
  nth (length pre + 1) (pre ++ a :: b :: post) 0%Z = b.
Proof. induction pre as [| x pre IH]; simpl; auto. Qed.

(** Reading back, low byte first, the two bytes of a 16-bit sample. *)
Lemma getInt16LE_int16Bytes pre s post :
  in_int16 s ->
  getInt16LE (pre ++ int16Bytes s ++ post) (length pre) = Some s.
Proof.
  unfold in_int16, getInt16LE, int16Bytes. intros Hs. simpl app.
  destruct (nth_after_prefix pre post (s mod 256) ((s / 256) mod 256))
    as [E1 E2].
  rewrite E1, E2.
  destruct (Nat.leb_spec (length pre + 2)
              (length (pre ++ s mod 256 :: (s / 256) mod 256 :: post))%Z)
    as [_ | Hlen].
  - f_equal.
    destruct (Z.leb_spec 32768 (s mod 256 + 256 * ((s / 256) mod 256)));
      Z.to_euclidean_division_equations; lia.
  - rewrite length_app in Hlen. simpl in Hlen. lia.
Qed.

Lemma storeAt_app done x rest v :
  storeAt (done ++ x :: rest) (length done) v = done ++ v :: rest.
Proof. induction done as [| d done IH]; simpl; trivial. now rewrite IH. Qed.

(** The decoding loop, [done] being the samples already read and [rest]
    those still to read. *)
Lemma decodeLoop_reads rest : forall fuel pre done sampleCount,
  Forall in_int16 rest ->
  length pre = (length done * 2)%nat ->
  (forall k, ltb (inject_Z (Z.of_nat k)) sampleCount
             = (k <? length done + length rest)%nat) ->
  (length rest < fuel)%nat ->
  decodeLoop fuel (pre ++ uint8ViewOfInt16 rest) sampleCount (length done)
             (done ++ repeat 0 (length rest))
  = Some (done ++ map (fun s => inject_Z s / 32768) rest).
Proof.
  induction rest as [| s rest IH]; intros fuel pre done sc Hin Hpre Hsc Hfuel.
  - destruct fuel as [| fuel]; [simpl in Hfuel; lia |].
    simpl. rewrite Hsc. simpl length.
    now rewrite Nat.add_0_r, Nat.ltb_irrefl.
  - destruct fuel as [| fuel]; [simpl in Hfuel; lia |].
    inversion_clear Hin as [| ? ? Hs Hrest].
    cbn [decodeLoop]. rewrite Hsc.
    destruct (Nat.ltb_spec (length done) (length done + length (s :: rest)))
      as [_ | Hbad]; [| simpl in Hbad; lia].
    change (uint8ViewOfInt16 (s :: rest))
      with (int16Bytes s ++ uint8ViewOfInt16 rest).
    rewrite <- Hpre, getInt16LE_int16Bytes by exact Hs.
    change (repeat 0 (length (s :: rest))) with (0 :: repeat 0 (length rest)).
    rewrite storeAt_app.
    set (v := inject_Z s / 32768).
    assert (E1 : pre ++ int16Bytes s ++ uint8ViewOfInt16 rest
                 = (pre ++ int16Bytes s) ++ uint8ViewOfInt16 rest)
      by now rewrite app_assoc.
    assert (E2 : done ++ v :: repeat 0 (length rest)
                 = (done ++ [v]) ++ repeat 0 (length rest))
      by now rewrite <- app_assoc.
    assert (E3 : S (length done) = length (done ++ [v]))
      by (rewrite length_app; simpl; lia).
    assert (E4 : done ++ map (fun s => inject_Z s / 32768) (s :: rest)
                 = (done ++ [v]) ++ map (fun s => inject_Z s / 32768) rest)
      by now rewrite <- app_assoc.
    rewrite E1, E2, E3, E4. apply IH; trivial.
    + rewrite !length_app. simpl. lia.
    + intros k. rewrite Hsc, length_app. simpl. f_equal. lia.
    + simpl in Hfuel. lia.
Qed.

(** The number of samples computed from the length of the byte string. *)
Lemma sampleCount_even n :
  trunc (inject_Z (Z.of_nat (2 * n)) / 2) = Z.of_nat n /\
  forall k, ltb (inject_Z (Z.of_nat k)) (inject_Z (Z.of_nat (2 * n)) / 2)
            = (k <? n)%nat.
Proof.
  split.
  - unfold trunc, Qdiv, Qmult, Qinv, inject_Z. simpl Qnum. simpl Qden.
    rewrite Z.quot_div_nonneg by lia.
    symmetry. apply Z.div_unique with (r := 0%Z); lia.
  - intros k. destruct (Nat.ltb_spec k n) as [H | H].
    + apply ltb_lt. unfold Qlt, Qdiv, Qmult, Qinv, inject_Z. simpl. lia.
    + apply ltb_ge. unfold Qle, Qdiv, Qmult, Qinv, inject_Z. simpl. lia.
Qed.

Lemma decodeSamples_encode pcm :
  Forall in_int16 pcm ->
  decodeSamples (encodePCMToBase64 pcm)
  = Some (map (fun s => inject_Z s / 32768) pcm).
Proof.
  intros H. unfold decodeSamples.
  rewrite binary_of_pcm, atob_btoa.
  rewrite charCodes_fromCharCode by apply uint8View_bytes.
  unfold fromCharCode.
  rewrite string_of_list_ascii_length, length_map, uint8View_length.
  destruct (sampleCount_even (length pcm)) as [Ht Hk].
  unfold newFloat32Array. rewrite Ht, Nat2Z.id.
  apply (decodeLoop_reads pcm (S (2 * length pcm)) [] [] _ H).
  - reflexivity.
  - exact Hk.
  - lia.
Qed.

(** C3: for every sequence of 16-bit samples, decoding the encoded payload
    succeeds and gives, at every index, the sample divided by 32768;
    multiplying a decoded value by 32768 gives the sample back. *)
Theorem C3_codec_round_trip (pcm : list Z) :
  Forall in_int16 pcm ->
  exists float32,
    decodeSamples (encodePCMToBase64 pcm) = Some float32 /\
    float32 = map (fun s => inject_Z s / 32768) pcm /\
    Forall2 (fun f s => f * 32768 == inject_Z s) float32 pcm.
Proof.
  intros H. exists (map (fun s => inject_Z s / 32768) pcm).
  split; [now apply decodeSamples_encode |]. split; [reflexivity |].
  clear H. induction pcm as [| s rest IH]; simpl; constructor; trivial.
  field.
Qed.

Lemma C3_codec_round_trip_witness :
  decodeSamples (encodePCMToBase64 [-32768; -1; 0; 1474; 32767]%Z)
  = Some [-32768 / 32768; -1 / 32768; 0 / 32768; 1474 / 32768;
          32767 / 32768].
Proof.
  destruct (C3_codec_round_trip [-32768; -1; 0; 1474; 32767]%Z)
    as (float32 & E & -> & _).
  - repeat constructor; unfold in_int16; lia.
  - exact E.
Defined.

End CodecRoundTrip.

(** ** Streaming Transport *)

(** Unfolds the projections of the trace and distributes them over the
    effects appended to it. *)
Ltac trace_simpl :=
  unfold VoiceSocket.sent, VoiceSocket.scheduled, VoiceSocket.started,
    VoiceSocket.errorsLogged; simpl;
  rewrite ?flat_map_app; simpl; rewrite ?app_nil_r.

Section TransportFacts.
Import VoiceSocket.

Variable b : Browser.

Lemma sent_emit e s :
  sent (emit e s) =
  sent s ++ match e with SocketSend p => [p] | _ => [] end.
Proof.
  unfold sent, emit. simpl. rewrite flat_map_app. simpl.
  now rewrite app_nil_r.
Qed.

Lemma scheduled_emit e s :
  scheduled (emit e s) =
  scheduled s ++ match e with SetTimeout d => [d] | _ => [] end.
Proof.
  unfold scheduled, emit. simpl. rewrite flat_map_app. simpl.
  now rewrite app_nil_r.
Qed.

(** While the socket is not open, [send] only appends to the queue. *)
Lemma sendAll_not_connected payloads : forall s,
  isConnected s = false ->
  sendAll payloads s = set_messageQueue (messageQueue s ++ payloads) s.
Proof.
  unfold sendAll.
  induction payloads as [| p rest IH]; intros s Hs; simpl.
  - rewrite app_nil_r. now destruct s.
  - assert (E : send p s = set_messageQueue (messageQueue s ++ [p]) s).
    { unfold send. unfold isConnected in Hs.
      destruct (socket s) as [[]|]; trivial; discriminate. }
    rewrite E, IH by exact Hs. unfold set_messageQueue. simpl.
    now rewrite <- app_assoc.
Qed.

(** While the socket is open, [send] only transmits. *)
Lemma sendAll_connected payloads : forall s,
  isConnected s = true ->
  sent (sendAll payloads s) = sent s ++ payloads /\
  messageQueue (sendAll payloads s) = messageQueue s /\
  isConnected (sendAll payloads s) = true.
Proof.
  unfold sendAll.
  induction payloads as [| p rest IH]; intros s Hs; simpl.
  - now rewrite app_nil_r.
  - assert (E : send p s = emit (SocketSend p) s).
    { unfold send. unfold isConnected in Hs.
      destruct (socket s) as [[]|]; trivial; discriminate. }
    rewrite E. destruct (IH (emit (SocketSend p) s) Hs) as (E1 & E2 & E3).
    rewrite E1, E2, E3, sent_emit. now rewrite <- app_assoc.
Qed.

(** The flushing loop transmits the queue from its head, empties it, and
    touches nothing else. *)
Lemma flushLoop_spec queue : forall s,
  messageQueue s = queue ->
  sent (flushLoop queue s) = sent s ++ queue /\
  messageQueue (flushLoop queue s) = [] /\
  socket (flushLoop queue s) = socket s /\
  reconnectAttempts (flushLoop queue s) = reconnectAttempts s /\
  isClosing (flushLoop queue s) = isClosing s /\
  pendingTimers (flushLoop queue s) = pendingTimers s /\
  scheduled (flushLoop queue s) = scheduled s.
Proof.
  induction queue as [| p rest IH]; intros s Hq; simpl.
  - rewrite app_nil_r. auto 10.
  - destruct (IH (emit (SocketSend p) (set_messageQueue rest s)) eq_refl)
      as (E1 & E2 & E3 & E4 & E5 & E6 & E7).
    rewrite E1, E2, E3, E4, E5, E6, E7, sent_emit, scheduled_emit.
    simpl. rewrite app_nil_r, <- app_assoc. auto 10.
Qed.

(** What a close event schedules when a retry is due, and what the timer
    then does: the delay is the base delay times the number of attempts
    already made, the attempt announced is that number plus one. *)
Lemma onclose_retry code s :
  isClosing s = false -> code <> 1000%Z ->
  (reconnectAttempts s < maxReconnectAttempts)%Z ->
  scheduled (onclose code s) =
    scheduled s ++ [(reconnectDelay * reconnectAttempts s)%Z] /\
  pendingTimers (onclose code s) =
    pendingTimers s ++ [(reconnectDelay * reconnectAttempts s)%Z] /\
  reconnectAttempts (onclose code s) = reconnectAttempts s /\
  isClosing (onclose code s) = false /\
  socket (onclose code s) = socket s.
Proof.
  intros Hc Hcode Hlt. unfold onclose, teardownPlayback, log. cbv zeta.
  apply Z.eqb_neq in Hcode. apply Z.ltb_lt in Hlt.
  destruct (playbackContext _); simpl; rewrite Hc, Hcode, Hlt; simpl;
    trace_simpl; auto.
Qed.

Lemma onclose_no_retry code s :
  isClosing s = true \/ code = 1000%Z \/
  (maxReconnectAttempts <= reconnectAttempts s)%Z ->
  scheduled (onclose code s) = scheduled s /\
  pendingTimers (onclose code s) = pendingTimers s /\
  reconnectAttempts (onclose code s) = reconnectAttempts s /\
  isClosing (onclose code s) = false /\
  socket (onclose code s) = socket s.
Proof.
  intros H. unfold onclose, teardownPlayback, log. cbv zeta.
  assert (E : negb (isClosing s) && negb (code =? 1000)%Z
              && (reconnectAttempts s <? maxReconnectAttempts)%Z = false).
  { destruct H as [H | [H | H]].
    - now rewrite H.
    - subst code. simpl. now rewrite andb_false_r.
    - apply Z.ltb_ge in H. rewrite H. now rewrite andb_false_r. }
  destruct (playbackContext _); simpl; rewrite E;
    destruct (isClosing s) eqn:Hc; simpl; trace_simpl; auto.
Qed.

Lemma reconnectTimer_spec s :
  hasWindow b = true ->
  reconnectAttempts (reconnectTimer b s) = (reconnectAttempts s + 1)%Z /\
  socket (reconnectTimer b s) = Some CONNECTING /\
  isClosing (reconnectTimer b s) = isClosing s /\
  pendingTimers (reconnectTimer b s) = pendingTimers s /\
  scheduled (reconnectTimer b s) = scheduled s /\
  effects (reconnectTimer b s) =
    effects s ++ [Log (AttemptingToReconnect (reconnectAttempts s + 1)
                                             maxReconnectAttempts) info].
Proof.
  intros Hw. unfold reconnectTimer, connect, log. cbv zeta. rewrite Hw.
  trace_simpl. auto 10.
Qed.

(** C1 (evaluation of the code): on a transport that has just been
    initialised, the first unexpected close (code 1006) schedules the
    reconnect with a delay of 0 ms, not 1000 ms; the timer then announces
    attempt number 1 and raises the counter to 1, and the close that
    follows schedules the second attempt after 1000 ms. *)
Theorem C1_first_retry_has_no_delay :
  let s1 := step page (init page new) (SocketClosed 1006) in
  let s2 := step page s1 TimerFired in
  let s3 := step page s2 (SocketClosed 1006) in
  scheduled s1 = [0%Z] /\
  reconnectAttempts s1 = 0%Z /\
  reconnectAttempts s2 = 1%Z /\
  In (Log (AttemptingToReconnect 1 5) info) (effects s2) /\
  scheduled s3 = [0%Z; 1000%Z].
Proof. vm_compute. intuition. Qed.

(** Opening the socket after frames were queued: the queue is transmitted
    in order and emptied. *)
Lemma open_flushes_queue (s : state) (payloads : list OutgoingAudioPayload) :
  isConnected s = false -> socket s <> None ->
  let opened := step b (sendAll payloads s) SocketOpened in
  sent opened = sent s ++ (messageQueue s ++ payloads) /\
  messageQueue opened = [] /\
  isConnected opened = true.
Proof.
  intros Hs Hsock opened. unfold opened.
  rewrite sendAll_not_connected by exact Hs. clear opened.
  unfold step, setReadyState, onopen, flushMessageQueue, log.
  cbn [socket set_messageQueue].
  destruct (socket s) as [r |] eqn:Er; [| contradiction].
  cbn [socket messageQueue set_messageQueue set_socket
       set_reconnectAttempts emit].
  match goal with
  | |- context [flushLoop ?q ?st] =>
      destruct (flushLoop_spec q st eq_refl) as (F1 & F2 & F3 & _)
  end.
  unfold isConnected. cbn [socket messageQueue emit].
  rewrite sent_emit, F1, F2, F3.
  cbn [socket]. rewrite app_nil_r. repeat split.
  f_equal. trace_simpl. reflexivity.
Qed.

(** The handling of a message neither transmits nor queues anything and
    leaves the socket alone. *)
Lemma ensurePlaybackContext_transport now s :
  let s0 := fst (ensurePlaybackContext b now s) in
  socket s0 = socket s /\ messageQueue s0 = messageQueue s /\
  sent s0 = sent s.
Proof.
  unfold ensurePlaybackContext.
  destruct (hasWindow b); simpl; auto.
  destruct (playbackContext s) as [[] |]; simpl; auto;
    destruct (hasAudioContextCtor b); trace_simpl; auto.
Qed.

Lemma handleAudioPlayback_transport now m s :
  socket (handleAudioPlayback b now m s) = socket s /\
  messageQueue (handleAudioPlayback b now m s) = messageQueue s /\
  sent (handleAudioPlayback b now m s) = sent s.
Proof.
  unfold handleAudioPlayback.
  destruct (msg_data m) as [[| c data] |]; auto.
  destruct (ensurePlaybackContext_transport now s) as (E1 & E2 & E3).
  destruct (ensurePlaybackContext b now s) as [s0 ok].
  simpl in E1, E2, E3. rewrite <- E1, <- E2, <- E3.
  destruct ok; simpl; auto.
  destruct (decodeSamples _) as [float32 |]; [| unfold log; trace_simpl; auto].
  destruct (createBuffer _ _ _); [| unfold log; trace_simpl; auto].
  unfold schedule.
  match goal with
  | |- context [JSNum.ltb ?x ?y] => destruct (JSNum.ltb x y)
  end; trace_simpl; auto.
Qed.

Lemma onmessage_transport now d s :
  socket (onmessage b now d s) = socket s /\
  messageQueue (onmessage b now d s) = messageQueue s /\
  sent (onmessage b now d s) = sent s.
Proof.
  destruct d as [| | m]; unfold onmessage, log; [auto | trace_simpl; auto |].
  destruct (String.eqb _ _).
  - destruct (msg_value m) as [[| c v] |]; trace_simpl; auto.
  - destruct (String.eqb _ _); [| trace_simpl; auto].
    destruct (msg_data m) eqn:Ed; [| trace_simpl; auto].
    destruct (handleAudioPlayback_transport now m s) as (E1 & E2 & E3).
    cbn [socket messageQueue emit]. rewrite sent_emit, E1, E2, E3.
    now rewrite app_nil_r.
Qed.

Lemma onclose_transport code s :
  socket (onclose code s) = socket s /\
  messageQueue (onclose code s) = messageQueue s /\
  sent (onclose code s) = sent s.
Proof.
  unfold onclose, teardownPlayback, setTimeout, log.
  destruct (playbackContext s); cbv zeta;
    cbn [isClosing reconnectAttempts emit set_playbackClock
         set_playbackContext];
    repeat match goal with
           | |- context [if ?c then _ else _] => destruct c
           end;
    trace_simpl; auto.
Qed.

(** An event other than the opening of the socket leaves the socket not
    open, the queue and what was transmitted as they are. *)
Lemma step_while_disconnected s e :
  e <> SocketOpened -> isConnected s = false -> socket s <> None ->
  isConnected (step b s e) = false /\ socket (step b s e) <> None /\
  messageQueue (step b s e) = messageQueue s /\
  sent (step b s e) = sent s.
Proof.
  intros He Hs Hsock. destruct e as [| code | | | now d];
    [contradiction | | | |].
  - unfold step, setReadyState.
    destruct (socket s) as [r |] eqn:Er; [| contradiction].
    destruct (onclose_transport code (set_socket (Some CLOSED) s))
      as (E1 & E2 & E3).
    unfold isConnected. rewrite E1, E2, E3. repeat split. discriminate.
  - unfold step, onerror, log, isConnected in *. trace_simpl. auto.
  - unfold step, reconnectTimer, connect, log, isConnected in *.
    destruct (pendingTimers s); [auto |].
    destruct (hasWindow b); trace_simpl; repeat split; auto; discriminate.
  - destruct (onmessage_transport now d s) as (E1 & E2 & E3).
    unfold step, isConnected in *. rewrite E1, E2, E3. auto.
Qed.

(** While the socket does not open, whatever else happens, the frames
    submitted pile up in the queue in the order of submission. *)
Lemma perform_while_disconnected actions : forall s,
  isConnected s = false -> socket s <> None ->
  Forall (fun a => a <> Deliver SocketOpened) actions ->
  isConnected (perform b s actions) = false /\
  socket (perform b s actions) <> None /\
  messageQueue (perform b s actions) = messageQueue s ++ submitted actions /\
  sent (perform b s actions) = sent s.
Proof.
  unfold perform.
  induction actions as [| a rest IH]; intros s Hs Hsock Hno.
  - simpl. now rewrite app_nil_r.
  - inversion_clear Hno as [| ? ? Ha Hrest]. cbn [fold_left].
    assert (H : isConnected (act b s a) = false /\
                socket (act b s a) <> None /\
                messageQueue (act b s a)
                  = messageQueue s ++ submitted [a] /\
                sent (act b s a) = sent s).
    { destruct a as [p | e].
      - cbn [act]. pose proof (sendAll_not_connected [p] s Hs) as E.
        unfold sendAll in E. cbn [fold_left] in E. rewrite E.
        unfold isConnected in *. cbn [socket set_messageQueue messageQueue].
        auto.
      - cbn [act submitted flat_map]. rewrite app_nil_r.
        apply step_while_disconnected; trivial. congruence. }
    destruct H as (H1 & H2 & H3 & H4).
    destruct (IH (act b s a) H1 H2 Hrest) as (I1 & I2 & I3 & I4).
    rewrite I3, I4, H3, H4, <- app_assoc.
    assert (E : submitted (a :: rest) = submitted [a] ++ submitted rest).
    { unfold submitted. change (a :: rest) with ([a] ++ rest).
      apply flat_map_app. }
    rewrite E. auto.
Qed.

(** C4: while the socket does not open, whatever else happens (closes,
    errors, reconnection timers), the frames submitted with [send] are
    appended to the queue in the order of submission and nothing is
    transmitted; when the socket opens, the whole queue is transmitted in
    that order and emptied; the frames submitted afterwards are transmitted
    after it. *)
Theorem C4_queue_flushed_in_submission_order
    (s : state) (actions : list Action)
    (after : list OutgoingAudioPayload) :
  isConnected s = false -> socket s <> None ->
  Forall (fun a => a <> Deliver SocketOpened) actions ->
  let queued := perform b s actions in
  let opened := step b queued SocketOpened in
  let later := sendAll after opened in
  messageQueue queued = messageQueue s ++ submitted actions /\
  sent queued = sent s /\
  sent opened = sent s ++ (messageQueue s ++ submitted actions) /\
  messageQueue opened = [] /\
  sent later = sent s ++ (messageQueue s ++ submitted actions) ++ after /\
  messageQueue later = [].
Proof.
  intros Hs Hsock Hno queued opened later.
  destruct (perform_while_disconnected actions s Hs Hsock Hno)
    as (Q1 & Q2 & Q3 & Q4).
  fold queued in Q1, Q2, Q3, Q4.
  pose proof (open_flushes_queue queued [] Q1 Q2) as Eo.
  cbv zeta in Eo. change (sendAll [] queued) with queued in Eo.
  fold opened in Eo. rewrite app_nil_r, Q3, Q4 in Eo.
  destruct Eo as (Eo1 & Eo2 & Eo3).
  destruct (sendAll_connected after opened Eo3) as (El1 & El2 & _).
  fold later in El1, El2.
  rewrite El1, El2, Eo1, Eo2, <- app_assoc. repeat split; trivial.
Qed.

(** One round of the retry policy: an unexpected close followed by the
    firing of the timer it has set. *)
Lemma retry_round (s : state) (code : Z) :
  hasWindow b = true ->
  isClosing s = false -> pendingTimers s = [] ->
  (reconnectAttempts s < maxReconnectAttempts)%Z -> code <> 1000%Z ->
  let s' := step b (step b s (SocketClosed code)) TimerFired in
  scheduled s' = scheduled s ++ [(reconnectDelay * reconnectAttempts s)%Z] /\
  pendingTimers s' = [] /\
  reconnectAttempts s' = (reconnectAttempts s + 1)%Z /\
  isClosing s' = false /\
  socket s' = Some CONNECTING.
Proof.
  intros Hw Hc Hp Hlt Hcode s'.
  assert (Hr : isClosing (setReadyState CLOSED s) = false /\
               pendingTimers (setReadyState CLOSED s) = [] /\
               reconnectAttempts (setReadyState CLOSED s)
                 = reconnectAttempts s /\
               scheduled (setReadyState CLOSED s) = scheduled s).
  { unfold setReadyState. destruct (socket s); auto. }
  destruct Hr as (R1 & R2 & R3 & R4).
  destruct (onclose_retry code (setReadyState CLOSED s) R1 Hcode)
    as (E1 & E2 & E3 & E4 & _).
  { now rewrite R3. }
  rewrite R2, R3, R4 in *. simpl app in E2.
  unfold s'. unfold step at 1. cbn [step]. rewrite E2.
  match goal with
  | |- context [reconnectTimer b ?st] =>
      destruct (reconnectTimer_spec st Hw) as (T1 & T2 & T3 & T4 & T5 & _)
  end.
  rewrite T1, T2, T3, T4, T5.
  cbn [reconnectAttempts isClosing pendingTimers set_pendingTimers].
  rewrite E3, E4.
  replace (scheduled (set_pendingTimers []
                        (onclose code (setReadyState CLOSED s))))
    with (scheduled (onclose code (setReadyState CLOSED s)))
    by reflexivity.
  rewrite E1. auto.
Qed.

(** Any number of rounds within the retry budget. *)
Lemma retry_rounds (codes : list Z) : forall s : state,
  hasWindow b = true ->
  Forall (fun code => code <> 1000%Z) codes ->
  isClosing s = false -> pendingTimers s = [] ->
  (reconnectAttempts s + Z.of_nat (length codes) <= maxReconnectAttempts)%Z ->
  let s' := run b s (flat_map (fun code => [SocketClosed code; TimerFired])
                              codes) in
  scheduled s'
    = scheduled s ++ retryDelays (reconnectAttempts s) (length codes) /\
  pendingTimers s' = [] /\
  reconnectAttempts s' = (reconnectAttempts s + Z.of_nat (length codes))%Z /\
  isClosing s' = false /\
  (codes <> [] -> socket s' = Some CONNECTING).
Proof.
  induction codes as [| code rest IH]; intros s Hw Hcodes Hc Hp Hn s'.
  - unfold s'. simpl. rewrite app_nil_r, Z.add_0_r. repeat split; trivial.
    intros H. now contradiction H.
  - inversion_clear Hcodes as [| ? ? Hcode Hrest].
    change (length (code :: rest)) with (S (length rest)) in *.
    destruct (retry_round s code Hw Hc Hp ltac:(lia) Hcode)
      as (S1 & P1 & A1 & C1 & K1).
    assert (E : s' = run b (step b (step b s (SocketClosed code)) TimerFired)
                       (flat_map (fun code => [SocketClosed code; TimerFired])
                                 rest)) by reflexivity.
    revert S1 P1 A1 C1 K1 E.
    generalize (step b (step b s (SocketClosed code)) TimerFired) as s1.
    intros s1 S1 P1 A1 C1 K1 E.
    destruct (IH s1 Hw Hrest C1 P1 ltac:(lia)) as (S2 & P2 & A2 & C2 & K2).
    rewrite <- E in S2, P2, A2, C2, K2.
    split; [| split; [| split; [| split]]]; trivial.
    + rewrite S2, S1, A1, <- app_assoc. f_equal.
      unfold retryDelays. cbn [seq map]. rewrite Z.add_0_r.
      rewrite <- seq_shift, map_map. cbn [app]. f_equal.
      apply map_ext. intros k. f_equal. lia.
    + lia.
    + intros _. destruct rest as [| code' rest'].
      * rewrite E. exact K1.
      * apply K2. discriminate.
Qed.

(** C5: from a transport with no attempt made yet, five unexpected closes
    in a row, each followed by its reconnection timer, schedule exactly
    five reconnects and bring the counter to 5; a sixth close schedules
    nothing, leaves no timer pending and leaves the socket closed, so that
    nothing further happens; and a close with code 1000 schedules nothing
    in any state. *)
Theorem C5_five_retries_then_disconnected
    (s : state) (codes : list Z) (sixth : Z) :
  hasWindow b = true ->
  reconnectAttempts s = 0%Z -> isClosing s = false ->
  pendingTimers s = [] ->
  length codes = 5%nat -> Forall (fun code => code <> 1000%Z) codes ->
  sixth <> 1000%Z ->
  let s5 := run b s (flat_map (fun code => [SocketClosed code; TimerFired])
                              codes) in
  let s6 := step b s5 (SocketClosed sixth) in
  length (scheduled s5) = (length (scheduled s) + 5)%nat /\
  scheduled s5 = scheduled s ++ [0; 1000; 2000; 3000; 4000]%Z /\
  reconnectAttempts s5 = 5%Z /\
  scheduled s6 = scheduled s5 /\
  pendingTimers s6 = [] /\
  socket s6 = Some CLOSED /\
  isConnected s6 = false /\
  step b s6 TimerFired = s6 /\
  (forall s', scheduled (step b s' (SocketClosed 1000)) = scheduled s' /\
              pendingTimers (step b s' (SocketClosed 1000))
                = pendingTimers s').
Proof.
  intros Hw Ha Hc Hp Hlen Hcodes Hsixth s5.
  destruct (retry_rounds codes s Hw Hcodes Hc Hp) as (E5 & P5 & A5 & C5 & K5).
  { rewrite Ha, Hlen. unfold maxReconnectAttempts. lia. }
  fold s5 in E5, P5, A5, C5, K5. clearbody s5.
  rewrite Ha, Hlen in E5, A5.
  change (retryDelays 0 5) with [0; 1000; 2000; 3000; 4000]%Z in E5.
  assert (K : socket s5 = Some CONNECTING)
    by (apply K5; intros ->; discriminate Hlen).
  assert (R : setReadyState CLOSED s5 = set_socket (Some CLOSED) s5)
    by (unfold setReadyState; now rewrite K).
  intros s6.
  destruct (onclose_no_retry sixth (set_socket (Some CLOSED) s5))
    as (N1 & N2 & _ & _ & N5).
  { right. right. cbn [reconnectAttempts set_socket]. rewrite A5.
    unfold maxReconnectAttempts. simpl. lia. }
  assert (E6 : s6 = onclose sixth (set_socket (Some CLOSED) s5))
    by (unfold s6, step; now rewrite R).
  rewrite <- E6 in N1, N2, N5. clearbody s6.
  change (scheduled (set_socket (Some CLOSED) s5)) with (scheduled s5) in N1.
  cbn [pendingTimers socket set_socket] in N2, N5. rewrite P5 in N2.
  split; [rewrite E5, length_app; reflexivity |].
  split; [exact E5 |]. split; [exact A5 |]. split; [exact N1 |].
  split; [exact N2 |]. split; [exact N5 |].
  split; [unfold isConnected; now rewrite N5 |].
  split; [unfold step; now rewrite N2 |].
  intros s'. unfold step.
  destruct (onclose_no_retry 1000 (setReadyState CLOSED s'))
    as (M1 & M2 & _); [auto |].
  rewrite M1, M2. unfold setReadyState. now destruct (socket s').
Qed.

(** C10: whatever was submitted with [send] before [init] while the socket
    was not open, [init] leaves the object exactly as if nothing had been
    submitted: the queue is empty, the attempt counter is 0, the closing
    flag is clear, nothing has been transmitted; and when the socket then
    opens, only the frames submitted after [init] are transmitted. *)
Theorem C10_init_discards_queued_frames
    (s : state) (before after : list OutgoingAudioPayload) :
  isConnected s = false -> hasWindow b = true ->
  let s1 := init b (sendAll before s) in
  messageQueue s1 = [] /\
  reconnectAttempts s1 = 0%Z /\
  isClosing s1 = false /\
  sent s1 = sent s /\
  s1 = init b s /\
  sent (step b (sendAll after s1) SocketOpened) = sent s ++ after /\
  messageQueue (step b (sendAll after s1) SocketOpened) = [].
Proof.
  intros Hs Hw s1.
  assert (E1 : s1 = init b s).
  { unfold s1. rewrite sendAll_not_connected by exact Hs.
    unfold init, connect. rewrite Hw. reflexivity. }
  assert (Hi : isConnected (init b s) = false /\ socket (init b s) <> None /\
               messageQueue (init b s) = [] /\ sent (init b s) = sent s).
  { unfold init, connect. rewrite Hw. repeat split. discriminate. }
  destruct Hi as (I1 & I2 & I3 & I4).
  destruct (open_flushes_queue (init b s) after I1 I2) as (F1 & F2 & _).
  rewrite E1, F1, F2, I3, I4.
  unfold init, connect. rewrite Hw. repeat split.
Qed.

End TransportFacts.

Section TransportWitnesses.
Import VoiceSocket.

Lemma C4_queue_flushed_in_submission_order_witness :
  sent (sendAll [frame "C"]
          (step page
                (perform page (init page new)
                         [Submit (frame "A"); Deliver (SocketClosed 1006);
                          Submit (frame "B"); Deliver TimerFired])
                SocketOpened))
  = [frame "A"; frame "B"; frame "C"].
Proof.
  assert (Hsock : socket (init page new) <> None) by discriminate.
  assert (Hno : Forall (fun a => a <> Deliver SocketOpened)
                       [Submit (frame "A"); Deliver (SocketClosed 1006);
                        Submit (frame "B"); Deliver TimerFired])
    by (repeat constructor; discriminate).
  destruct (C4_queue_flushed_in_submission_order page (init page new)
              [Submit (frame "A"); Deliver (SocketClosed 1006);
               Submit (frame "B"); Deliver TimerFired]
              [frame "C"] eq_refl Hsock Hno)
    as (_ & _ & _ & _ & E & _).
  exact E.
Defined.

Lemma C5_five_retries_then_disconnected_witness :
  let s5 := run page (init page new)
              (flat_map (fun code => [SocketClosed code; TimerFired])
                        [1006; 1006; 1011; 1006; 1001]%Z) in
  scheduled s5 = [0; 1000; 2000; 3000; 4000]%Z /\
  scheduled (step page s5 (SocketClosed 1006)) = scheduled s5.
Proof.
  assert (Hcodes : Forall (fun code => code <> 1000%Z)
                          [1006; 1006; 1011; 1006; 1001]%Z)
    by (repeat constructor; discriminate).
  assert (Hsixth : 1006%Z <> 1000%Z) by discriminate.
  pose proof (C5_five_retries_then_disconnected page
                (init page new) [1006; 1006; 1011; 1006; 1001]%Z 1006%Z
                eq_refl eq_refl eq_refl eq_refl eq_refl Hcodes Hsixth)
    as H.
  cbv zeta in H. destruct H as (_ & E5 & _ & E6 & _).
  split; [exact E5 | exact E6].
Defined.

End TransportWitnesses.

(** ** Playback Scheduler *)

Section PlaybackFacts.
Import JSNum VoiceSocket.

Variable b : Browser.
Hypothesis b_window : hasWindow b = true.
Hypothesis b_audio : hasAudioContextCtor b = true.

Lemma list_ascii_length s :
  length (list_ascii_of_string s) = String.length s.
Proof. induction s as [| c s IH]; simpl; auto. Qed.

(** With an odd number of bytes the loop counter stays below the sample
    count up to the last, incomplete, pair of bytes. *)
Lemma sampleCount_odd k i :
  (i <= k)%nat ->
  ltb (inject_Z (Z.of_nat i)) (inject_Z (Z.of_nat (2 * k + 1)) / 2) = true.
Proof.
  intros H. apply ltb_lt. unfold Qlt, Qdiv, Qmult, Qinv, inject_Z.
  simpl. lia.
Qed.

Lemma decodeLoop_odd bytes k fuel : forall i float32,
  length bytes = (2 * k + 1)%nat -> (i <= k)%nat -> (k - i < fuel)%nat ->
  decodeLoop fuel bytes (inject_Z (Z.of_nat (2 * k + 1)) / 2) i float32
  = None.
Proof.
  induction fuel as [| fuel IH]; intros i float32 Hlen Hi Hfuel.
  - lia.
  - cbn [decodeLoop]. rewrite sampleCount_odd by exact Hi.
    unfold Platform.getInt16LE. rewrite Hlen.
    destruct (Nat.leb_spec (i * 2 + 2) (2 * k + 1)) as [Hin | Hout].
    + apply IH; trivial; lia.
    + reflexivity.
Qed.

(** A payload that decodes to an odd number of bytes makes the decoding
    throw. *)
Lemma decodeSamples_odd data byteStr :
  Platform.atob data = Some byteStr ->
  Nat.odd (String.length byteStr) = true ->
  decodeSamples data = None.
Proof.
  intros Ha Hodd. unfold decodeSamples. rewrite Ha.
  apply Nat.odd_spec in Hodd. destruct Hodd as [k Hk].
  rewrite Hk. apply decodeLoop_odd with (k := k).
  - unfold Platform.charCodes. now rewrite length_map, list_ascii_length.
  - lia.
  - lia.
Qed.

Lemma ensurePlaybackContext_available now s :
  exists s0,
    ensurePlaybackContext b now s = (s0, true) /\
    playbackContext s0 = Some running /\
    playbackClock s0 = clockAfterEnsure now s /\
    effects s0 = effects s /\ socket s0 = socket s /\
    messageQueue s0 = messageQueue s /\
    reconnectAttempts s0 = reconnectAttempts s /\
    isClosing s0 = isClosing s /\ pendingTimers s0 = pendingTimers s.
Proof.
  unfold ensurePlaybackContext, clockAfterEnsure.
  rewrite b_window, b_audio. simpl.
  destruct (playbackContext s) as [[] |] eqn:E; eexists; split;
    try reflexivity; simpl; auto 10.
Qed.

(** The dispatch of an audio message that carries a non-empty [data]. *)
Lemma onmessage_audio now m data s :
  msg_type m = "audio"%string -> msg_data m = Some data ->
  data <> EmptyString ->
  onmessage b now (Parsed m) s =
  emit (OnMessageCallback m)
    (let (s0, _) := ensurePlaybackContext b now s in
     match decodeSamples data with
     | None => log AudioPlaybackError error s0
     | Some float32 =>
         match createBuffer b float32 (sampleRateOf m) with
         | None => log AudioPlaybackError error s0
         | Some duration =>
             schedule now float32 (sampleRateOf m) duration s0
         end
     end).
Proof.
  intros Ht Hd Hne. unfold onmessage, handleAudioPlayback.
  rewrite Ht, Hd. simpl String.eqb. cbv iota.
  destruct data as [| c data]; [contradiction |].
  destruct (ensurePlaybackContext_available now s) as (s0 & E & _).
  rewrite E. reflexivity.
Qed.



(** C8: an audio message whose [data] decodes to an odd number of bytes is
    answered by one logged error, [Audio playback error], and nothing else:
    no buffer is started (neither zero-filled nor cut short), the message is
    still passed to the observer, and the socket, the queue, the attempt
    counter, the closing flag and the timers are as before. *)
Theorem C8_odd_byte_count_is_reported
    (s : state) (now : Q) (m : ServerMessage) (data byteStr : string) :
  msg_type m = "audio"%string -> msg_data m = Some data ->
  Platform.atob data = Some byteStr ->
  Nat.odd (String.length byteStr) = true ->
  let s' := step b s (MessageReceived now (Parsed m)) in
  decodeSamples data = None /\
  effects s' =
    effects s ++ [Log AudioPlaybackError error; OnMessageCallback m] /\
  errorsLogged s' = errorsLogged s ++ [AudioPlaybackError] /\
  started s' = started s /\
  playbackClock s' = clockAfterEnsure now s /\
  socket s' = socket s /\ messageQueue s' = messageQueue s /\
  reconnectAttempts s' = reconnectAttempts s /\
  isClosing s' = isClosing s /\ pendingTimers s' = pendingTimers s.
Proof.
  intros Ht Hd Ha Hodd s'.
  pose proof (decodeSamples_odd data byteStr Ha Hodd) as Hdec.
  assert (Hne : data <> EmptyString).
  { intros ->. vm_compute in Ha. injection Ha as <-. discriminate Hodd. }
  unfold s', step. rewrite (onmessage_audio now m data s Ht Hd Hne).
  destruct (ensurePlaybackContext_available now s)
    as (s0 & E & _ & Hclk & Heff & Hso & Hq & Hr & Hc & Hp).
  rewrite E, Hdec. unfold log.
  assert (Heff' : effects (emit (OnMessageCallback m)
                             (emit (Log AudioPlaybackError error) s0))
                  = effects s ++ [Log AudioPlaybackError error;
                                  OnMessageCallback m]).
  { cbn [effects emit]. now rewrite Heff, <- app_assoc. }
  split; [reflexivity |]. split; [exact Heff' |].
  unfold errorsLogged, started. rewrite Heff', !flat_map_app.
  cbn [flat_map app]. rewrite app_nil_r.
  cbn [playbackClock socket messageQueue reconnectAttempts isClosing
       pendingTimers emit].
  auto 10.
Qed.


End PlaybackFacts.

(** ** Capture Pipeline *)

Section PipelineFacts.
Import VoiceSocket AudioRecorder.

Variable b : Browser.



Lemma ensureAudioContext_refs r :
  let r' := fst (ensureAudioContext b r) in
  isTransmittingRef r' = isTransmittingRef r /\
  recorderRef r' = recorderRef r /\ streamRef r' = streamRef r /\
  socketRef r' = socketRef r /\ chunksSentRef r' = chunksSentRef r.
Proof.
  unfold ensureAudioContext.
  destruct (hasWindow b); simpl; auto.
  destruct (audioContextRef r) as [[] |]; simpl; auto;
    destruct (hasAudioContextCtor b); simpl; auto.
Qed.




End PipelineFacts.

(** ** The statements at concrete inputs *)

Section Instances.
Import VoiceSocket AudioRecorder.



Lemma C8_odd_byte_count_is_reported_witness :
  errorsLogged (step page new (MessageReceived 0 (Parsed threeBytes)))
  = [AudioPlaybackError] /\
  started (step page new (MessageReceived 0 (Parsed threeBytes))) = [].
Proof.
  assert (Ha : Platform.atob "AAAA"
               = Some (String zero (String zero (String zero EmptyString))))
    by (vm_compute; reflexivity).
  destruct (C8_odd_byte_count_is_reported page eq_refl eq_refl new 0
              threeBytes "AAAA" _ eq_refl eq_refl Ha eq_refl)
    as (_ & _ & E1 & E2 & _).
  split; [exact E1 | exact E2].
Defined.

Lemma C10_init_discards_queued_frames_witness :
  sent (step page
          (sendAll [frame "B"] (init page (sendAll [frame "A"] new)))
          SocketOpened)
  = [frame "B"].
Proof.
  destruct (C10_init_discards_queued_frames page new [frame "A"] [frame "B"]
              eq_refl eq_refl)
    as (_ & _ & _ & _ & _ & E & _).
  exact E.
Defined.



End Instances.

(** ** Further properties of the transport *)

Section SessionFacts.
Import VoiceSocket Session.

Variable b : Browser.

(** An event never touches the frames: what was transmitted followed by
    what is queued stays the same list, and an open socket has an empty
    queue behind it. *)
Lemma step_keeps_frames s e :
  (isConnected s = true -> messageQueue s = []) ->
  sent (step b s e) ++ messageQueue (step b s e)
    = sent s ++ messageQueue s /\
  (isConnected (step b s e) = true -> messageQueue (step b s e) = []).
Proof.
  intros Hinv. destruct e as [| code | | | now d].
  - unfold step, onopen, log, flushMessageQueue, setReadyState.
    destruct (socket s) as [r |] eqn:Er.
    + cbn [socket set_socket set_reconnectAttempts emit messageQueue].
      match goal with
      | |- context [flushLoop ?q ?st] =>
          destruct (flushLoop_spec q st eq_refl) as (F1 & F2 & _)
      end.
      cbn [messageQueue emit]. rewrite sent_emit, F1, F2.
      split; [| trivial]. rewrite !app_nil_r. f_equal.
      trace_simpl. reflexivity.
    + cbn [socket set_reconnectAttempts emit messageQueue].
      rewrite Er. unfold isConnected.
      cbn [socket emit set_reconnectAttempts messageQueue].
      rewrite Er. split; [| discriminate].
      rewrite sent_emit, app_nil_r. f_equal. trace_simpl. reflexivity.
  - unfold step.
    destruct (onclose_transport code (setReadyState CLOSED s))
      as (E1 & E2 & E3).
    unfold isConnected. rewrite E1, E2, E3. unfold setReadyState.
    destruct (socket s) as [r |] eqn:Er; cbn [socket set_socket];
      [| rewrite Er]; split; trivial; discriminate.
  - unfold step, onerror, log, isConnected in *. trace_simpl. auto.
  - unfold step, reconnectTimer, connect, log, isConnected in *.
    destruct (pendingTimers s); [auto |].
    destruct (hasWindow b); trace_simpl; split; trivial; discriminate.
  - destruct (onmessage_transport b now d s) as (E1 & E2 & E3).
    unfold step, isConnected in *. rewrite E1, E2, E3. auto.
Qed.

Lemma act_keeps_frames s a :
  (isConnected s = true -> messageQueue s = []) ->
  sent (act b s a) ++ messageQueue (act b s a)
    = (sent s ++ messageQueue s) ++ submitted [a] /\
  (isConnected (act b s a) = true -> messageQueue (act b s a) = []).
Proof.
  intros Hinv. destruct a as [p | e].
  - cbn [act submitted flat_map app]. unfold send, isConnected in *.
    destruct (socket s) as [[] |] eqn:Er;
      cbn [socket messageQueue set_messageQueue emit];
      rewrite ?Er, ?sent_emit; try (split; [| discriminate]);
      try now rewrite app_assoc.
    rewrite (Hinv eq_refl), !app_nil_r. auto.
  - cbn [act submitted flat_map]. rewrite app_nil_r.
    now apply step_keeps_frames.
Qed.

(** X1: whatever the owner submits and whatever the event loop delivers, in
    any order, as long as [init] and [close] are not called: the frames
    transmitted followed by the frames still queued are exactly the frames
    submitted, in the order of submission; none is lost, repeated or
    overtaken.  The queue is empty whenever the socket is open. *)
Theorem X1_frames_kept_in_order (s : state) (actions : list Action) :
  (isConnected s = true -> messageQueue s = []) ->
  let s' := perform b s actions in
  sent s' ++ messageQueue s'
    = (sent s ++ messageQueue s) ++ submitted actions /\
  (isConnected s' = true -> messageQueue s' = []).
Proof.
  unfold perform. revert s.
  induction actions as [| a rest IH]; intros s Hinv.
  - simpl. now rewrite app_nil_r.
  - cbn [fold_left]. destruct (act_keeps_frames s a Hinv) as (E & Hinv').
    destruct (IH (act b s a) Hinv') as (E' & Hinv'').
    cbv zeta in E'. rewrite E', E. split; [| exact Hinv''].
    rewrite <- app_assoc. f_equal. unfold submitted.
    change (a :: rest) with ([a] ++ rest). now rewrite flat_map_app.
Qed.

(** The handling of a message leaves the retry policy alone. *)
Lemma onmessage_session now d s :
  reconnectAttempts (onmessage b now d s) = reconnectAttempts s /\
  pendingTimers (onmessage b now d s) = pendingTimers s.
Proof.
  assert (He : forall s0,
             reconnectAttempts (fst (ensurePlaybackContext b now s0))
               = reconnectAttempts s0 /\
             pendingTimers (fst (ensurePlaybackContext b now s0))
               = pendingTimers s0).
  { intros s0. unfold ensurePlaybackContext.
    destruct (hasWindow b); simpl; auto.
    destruct (playbackContext s0) as [[] |]; simpl; auto;
      destruct (hasAudioContextCtor b); simpl; auto. }
  assert (Hh : forall m,
             reconnectAttempts (handleAudioPlayback b now m s)
               = reconnectAttempts s /\
             pendingTimers (handleAudioPlayback b now m s)
               = pendingTimers s).
  { intros m. unfold handleAudioPlayback.
    destruct (msg_data m) as [[| c data] |]; auto.
    destruct (He s) as (E1 & E2).
    destruct (ensurePlaybackContext b now s) as [s0 ok].
    simpl in E1, E2. rewrite <- E1, <- E2.
    destruct ok; simpl; auto.
    destruct (decodeSamples _) as [float32 |]; [| simpl; auto].
    destruct (createBuffer _ _ _); [| simpl; auto].
    unfold schedule.
    match goal with
    | |- context [JSNum.ltb ?x ?y] => destruct (JSNum.ltb x y)
    end; simpl; auto. }
  destruct d as [| | m]; unfold onmessage, log; simpl; auto.
  destruct (String.eqb _ _).
  - destruct (msg_value m) as [[| c v] |]; simpl; auto.
  - destruct (String.eqb _ _); [| simpl; auto].
    destruct (msg_data m) eqn:Ed; [| simpl; auto].
    destruct (Hh m) as (E1 & E2). simpl. now rewrite E1, E2.
Qed.

Lemma step_keeps_budget s e :
  budgetKept s -> enabled s e = true -> budgetKept (step b s e).
Proof.
  unfold budgetKept, maxReconnectAttempts.
  intros (Ha & Hp) He. destruct e as [| code | | | now d].
  - cbn [enabled] in He.
    destruct (socket s) as [[] |] eqn:Er; try discriminate.
    destruct Hp as [Hp | (_ & Hc & _)]; [| congruence].
    unfold step, onopen, log, flushMessageQueue, setReadyState.
    rewrite Er. cbn [socket set_socket set_reconnectAttempts emit].
    match goal with
    | |- context [flushLoop ?q ?st] =>
        destruct (flushLoop_spec q st eq_refl) as (_ & _ & _ & F4 & _ & F6 & _)
    end.
    cbn [reconnectAttempts pendingTimers emit]. rewrite F4, F6.
    cbn [reconnectAttempts pendingTimers set_reconnectAttempts emit
         set_socket].
    split; [lia | now left].
  - cbn [enabled] in He. unfold live in He.
    destruct Hp as [Hp | (_ & Hc & _)];
      [| rewrite Hc in He; discriminate].
    assert (Hs : setReadyState CLOSED s = set_socket (Some CLOSED) s).
    { unfold setReadyState. destruct (socket s); [trivial | discriminate]. }
    unfold step. rewrite Hs.
    destruct (isClosing s) eqn:Hcl.
    + destruct (onclose_no_retry code (set_socket (Some CLOSED) s))
        as (_ & N2 & N3 & _); [now left |].
      rewrite N2, N3. cbn [reconnectAttempts pendingTimers set_socket].
      split; [lia | now left].
    + destruct (Z.eq_dec code 1000) as [Hc | Hc].
      * destruct (onclose_no_retry code (set_socket (Some CLOSED) s))
          as (_ & N2 & N3 & _); [auto |].
        rewrite N2, N3. cbn [reconnectAttempts pendingTimers set_socket].
        split; [lia | now left].
      * destruct (Z_lt_le_dec (reconnectAttempts s) 5) as [Hlt | Hge].
        -- destruct (onclose_retry code (set_socket (Some CLOSED) s)
                       Hcl Hc Hlt) as (_ & R2 & R3 & _ & R5).
           rewrite R2, R3, R5.
           cbn [reconnectAttempts pendingTimers socket set_socket].
           rewrite Hp. split; [lia |]. right. repeat split; trivial.
           eexists. reflexivity.
        -- destruct (onclose_no_retry code (set_socket (Some CLOSED) s))
             as (_ & N2 & N3 & _).
           { right. right. exact Hge. }
           rewrite N2, N3. cbn [reconnectAttempts pendingTimers set_socket].
           split; [lia | now left].
  - unfold step, onerror, log.
    cbn [reconnectAttempts pendingTimers socket emit]. auto.
  - cbn [enabled] in He.
    destruct Hp as [Hp | ((d & Hp) & Hc & Hlt)];
      [rewrite Hp in He; discriminate |].
    unfold step. rewrite Hp. unfold reconnectTimer, connect, log.
    destruct (hasWindow b);
      cbn [reconnectAttempts pendingTimers socket emit set_socket
           set_reconnectAttempts set_pendingTimers];
      (split; [lia | now left]).
  - unfold step.
    assert (H : reconnectAttempts (onmessage b now d s) = reconnectAttempts s
                /\ pendingTimers (onmessage b now d s) = pendingTimers s).
    { apply onmessage_session. }
    destruct H as (H1 & H2).
    destruct (onmessage_transport b now d s) as (E1 & _).
    rewrite H1, H2, E1. auto.
Qed.

(** X2: along any run of events that the event loop can deliver, started
    with no timer pending and a counter within the budget, the attempt
    counter never exceeds 5 and at most one reconnection timer is pending
    at a time, the socket being closed while it is. *)
Theorem X2_one_timer_and_bounded_attempts (s : state) (events : list Event) :
  (0 <= reconnectAttempts s <= maxReconnectAttempts)%Z ->
  pendingTimers s = [] ->
  enabledRun b s events ->
  let s' := run b s events in
  (0 <= reconnectAttempts s' <= 5)%Z /\
  (length (pendingTimers s') <= 1)%nat /\
  (pendingTimers s' <> [] -> socket s' = Some CLOSED).
Proof.
  intros Ha Hp Hrun s'.
  assert (Hk : budgetKept s') .
  { unfold s', run. assert (H0 : budgetKept s) by (split; auto).
    clear Ha Hp s'. revert s H0 Hrun.
    induction events as [| e rest IH]; intros s H0 Hrun; [exact H0 |].
    destruct Hrun as (He & Hrest). cbn [fold_left].
    apply IH; [now apply step_keeps_budget | exact Hrest]. }
  destruct Hk as (Hb & [Hq | ((d & Hq) & Hc & _)]).
  - rewrite Hq. repeat split; try apply Hb; auto. intros H. now contradiction H.
  - rewrite Hq. repeat split; try apply Hb; auto.
Qed.

Lemma close_spec (s : state) :
  socket (close s) = None /\ messageQueue (close s) = [] /\
  isClosing (close s) = true /\ playbackContext (close s) = None /\
  scheduled (close s) = scheduled s /\
  pendingTimers (close s) = pendingTimers s /\ sent (close s) = sent s /\
  reconnectAttempts (close s) = reconnectAttempts s.
Proof.
  destruct s as [so ra mq ic pc pk pt ef]. unfold close, teardownPlayback.
  destruct so, pc; simpl; auto 10.
Qed.

(** X3: an explicit [close()] is final.  It drops the socket, the queue and
    the playback context at once; the close event that follows, whatever
    its code and whatever the attempt counter, schedules no reconnection and
    only clears the closing flag; the frames that were queued are never
    transmitted, and frames submitted afterwards are queued, not sent. *)
Theorem X3_explicit_close_is_final
    (s : state) (code : Z) (after : list OutgoingAudioPayload) :
  let s1 := close s in
  let s2 := step b s1 (SocketClosed code) in
  socket s1 = None /\ messageQueue s1 = [] /\ isClosing s1 = true /\
  playbackContext s1 = None /\
  scheduled s2 = scheduled s /\ pendingTimers s2 = pendingTimers s /\
  isClosing s2 = false /\ socket s2 = None /\
  sent (sendAll after s2) = sent s /\
  messageQueue (sendAll after s2) = after.
Proof.
  intros s1 s2.
  destruct (close_spec s) as (A1 & A2 & A3 & A4 & A5 & A6 & A7 & _).
  fold s1 in A1, A2, A3, A4, A5, A6, A7.
  assert (Hs : setReadyState CLOSED s1 = s1)
    by (unfold setReadyState; now rewrite A1).
  destruct (onclose_no_retry code s1) as (N1 & N2 & _ & N4 & N5);
    [now left |].
  destruct (onclose_transport code s1) as (_ & T2 & T3).
  assert (E2 : s2 = onclose code s1) by (unfold s2, step; now rewrite Hs).
  rewrite <- E2 in N1, N2, N4, N5, T2, T3.
  assert (Hn : isConnected s2 = false)
    by (unfold isConnected; now rewrite N5, A1).
  rewrite (sendAll_not_connected after s2 Hn).
  cbn [messageQueue set_messageQueue].
  change (sent (set_messageQueue (messageQueue s2 ++ after) s2))
    with (sent s2).
  rewrite N1, N2, N4, N5, T2, T3, A1, A2, A5, A6, A7. auto 12.
Qed.

(** X4: [close()] does not cancel a reconnection that is already scheduled.
    If a timer is pending when [close()] is called, the timer still fires,
    raises the attempt counter and creates a new socket, which can then
    open: the transport is connected again although its owner closed it,
    and its closing flag is still set. *)
Theorem X4_close_keeps_pending_reconnection (s : state) :
  hasWindow b = true -> pendingTimers s <> [] ->
  let s1 := step b (close s) TimerFired in
  let s2 := step b s1 SocketOpened in
  socket s1 = Some CONNECTING /\
  reconnectAttempts s1 = (reconnectAttempts s + 1)%Z /\
  isClosing s1 = true /\
  isConnected s2 = true /\ isClosing s2 = true.
Proof.
  intros Hw Hp s1 s2.
  destruct (close_spec s) as (_ & _ & A3 & _ & _ & A1 & _ & A2).
  destruct (pendingTimers s) as [| d rest] eqn:Ep; [now contradiction Hp |].
  assert (E1 : s1 = reconnectTimer b (set_pendingTimers rest (close s)))
    by (unfold s1, step; now rewrite A1).
  destruct (reconnectTimer_spec b (set_pendingTimers rest (close s)) Hw)
    as (T1 & T2 & T3 & _).
  rewrite <- E1 in T1, T2, T3.
  cbn [reconnectAttempts isClosing set_pendingTimers] in T1, T3.
  rewrite A2 in T1. rewrite A3 in T3.
  assert (H2 : isConnected s2 = true /\ isClosing s2 = isClosing s1).
  { unfold s2, step, setReadyState, onopen, log, flushMessageQueue.
    rewrite T2. cbn [socket set_socket set_reconnectAttempts emit].
    match goal with
    | |- context [flushLoop ?q ?st] =>
        destruct (flushLoop_spec q st eq_refl)
          as (_ & _ & F3 & _ & F5 & _)
    end.
    unfold isConnected. cbn [socket isClosing emit]. rewrite F3, F5.
    split; reflexivity. }
  destruct H2 as (H2 & H3). rewrite H3, T3. auto.
Qed.

(** X5: a successful open gives the whole retry budget back.  After the
    socket has opened, whatever the attempt counter was, five unexpected
    closes in a row are each followed by a reconnection, scheduled after 0,
    1000, 2000, 3000 and 4000 ms. *)
Theorem X5_open_restores_retry_budget (s : state) (codes : list Z) :
  hasWindow b = true ->
  isClosing s = false -> pendingTimers s = [] ->
  length codes = 5%nat -> Forall (fun code => code <> 1000%Z) codes ->
  let s1 := step b s SocketOpened in
  reconnectAttempts s1 = 0%Z /\
  scheduled (run b s1 (rounds codes))
    = scheduled s ++ [0; 1000; 2000; 3000; 4000]%Z.
Proof.
  intros Hw Hc Hp Hlen Hcodes s1.
  assert (H1 : reconnectAttempts s1 = 0%Z /\ isClosing s1 = false /\
               pendingTimers s1 = [] /\ scheduled s1 = scheduled s).
  { unfold s1, step, setReadyState, onopen, log, flushMessageQueue.
    destruct (socket s) as [r |] eqn:Er.
    - cbn [socket set_socket set_reconnectAttempts emit].
      match goal with
      | |- context [flushLoop ?q ?st] =>
          destruct (flushLoop_spec q st eq_refl)
            as (_ & _ & _ & F4 & F5 & F6 & F7)
      end.
      cbn [reconnectAttempts isClosing pendingTimers emit].
      rewrite scheduled_emit, F4, F5, F6, F7, app_nil_r.
      cbn [reconnectAttempts isClosing pendingTimers emit set_socket
           set_reconnectAttempts].
      repeat split; trivial. trace_simpl. reflexivity.
    - cbn [socket set_reconnectAttempts emit]. rewrite Er.
      cbn [reconnectAttempts isClosing pendingTimers emit
           set_reconnectAttempts].
      repeat split; trivial. trace_simpl. reflexivity. }
  destruct H1 as (A1 & A2 & A3 & A4). split; [exact A1 |].
  destruct (retry_rounds b codes s1 Hw Hcodes A2 A3) as (E & _).
  { rewrite A1, Hlen. unfold maxReconnectAttempts. lia. }
  unfold rounds. rewrite E, A1, A4, Hlen. reflexivity.
Qed.

End SessionFacts.

(** ** Further properties of the dispatch and of the playback *)

(** Solves a goal saying that only error logs were appended. *)
Ltac logs_only :=
  eexists; split;
  [reflexivity | repeat constructor; eexists; reflexivity].

Section DispatchFacts.
Import JSNum VoiceSocket Session.

Variable b : Browser.

(** What [handleAudioPlayback] does, in two cases: it starts nothing and
    only logs, leaving a running context and its clock alone; or it starts
    one buffer at [startTime] and moves the clock to the end of it. *)
Lemma handleAudioPlayback_outcome now m s :
  let s' := handleAudioPlayback b now m s in
  ((exists l, effects s' = effects s ++ l /\
              Forall (fun e => exists msg, e = Log msg error) l) /\
   (playbackContext s = Some running ->
    playbackContext s' = Some running /\
    playbackClock s' = playbackClock s)) \/
  (exists float32,
     let t := startTime now (clockAfterEnsure now s) in
     effects s' = effects s ++ [SourceStart t float32 (sampleRateOf m)] /\
     playbackContext s' = Some running /\
     playbackClock s'
       = t + inject_Z (Z.of_nat (length float32)) / sampleRateOf m).
Proof.
  unfold handleAudioPlayback.
  assert (Hnone : forall s0 : state,
            (exists l, effects s0 = effects s0 ++ l /\
                       Forall (fun e => exists msg, e = Log msg error) l) /\
            (playbackContext s0 = Some running ->
             playbackContext s0 = Some running /\
             playbackClock s0 = playbackClock s0)).
  { intros s0. split; [exists []; rewrite app_nil_r |]; auto. }
  destruct (msg_data m) as [[| c data] |]; [left; apply Hnone | |
                                            left; apply Hnone].
  unfold ensurePlaybackContext, clockAfterEnsure.
  destruct (hasWindow b); cbn [negb]; [| left; apply Hnone].
  destruct (playbackContext s) as [[] |] eqn:Ec.
  - cbn [negb].
    destruct (decodeSamples _) as [float32 |];
      [| left; split; [logs_only | intros _; simpl; rewrite ?Ec; auto]].
    unfold createBuffer.
    destruct (length float32 =? 0)%nat;
      [left; split; [logs_only | intros _; simpl; rewrite ?Ec; auto] |].
    destruct (supportsSampleRate b (sampleRateOf m)); cbn [negb];
      [| left; split; [logs_only | intros _; simpl; rewrite ?Ec; auto]].
    right. exists float32. unfold schedule, startTime.
    destruct (ltb (playbackClock s) (now + (5 # 100))); simpl;
      rewrite ?Ec; auto.
  - destruct (hasAudioContextCtor b); cbn [negb];
      [| left; split; [logs_only | discriminate]].
    destruct (decodeSamples _) as [float32 |];
      [| left; split; [logs_only | discriminate]].
    unfold createBuffer.
    destruct (length float32 =? 0)%nat;
      [left; split; [logs_only | discriminate] |].
    destruct (supportsSampleRate b (sampleRateOf m)); cbn [negb];
      [| left; split; [logs_only | discriminate]].
    right. exists float32. unfold schedule, startTime.
    cbn [playbackClock set_playbackClock].
    destruct (ltb now (now + (5 # 100))); simpl; auto.
  - destruct (hasAudioContextCtor b); cbn [negb];
      [| left; split; [logs_only | discriminate]].
    destruct (decodeSamples _) as [float32 |];
      [| left; split; [logs_only | discriminate]].
    unfold createBuffer.
    destruct (length float32 =? 0)%nat;
      [left; split; [logs_only | discriminate] |].
    destruct (supportsSampleRate b (sampleRateOf m)); cbn [negb];
      [| left; split; [logs_only | discriminate]].
    right. exists float32. unfold schedule, startTime.
    cbn [playbackClock set_playbackClock].
    destruct (ltb now (now + (5 # 100))); simpl; auto.
Qed.

(** The effects that [handleAudioPlayback] appends are not calls of the
    observers. *)
Lemma handleAudioPlayback_observers now m s :
  forwarded (handleAudioPlayback b now m s) = forwarded s /\
  stateValues (handleAudioPlayback b now m s) = stateValues s.
Proof.
  assert (Hl : forall l,
            Forall (fun e => exists msg, e = Log msg error) l ->
            flat_map (fun e => match e with
                               | OnMessageCallback m => [m]
                               | _ => []
                               end) l = [] /\
            flat_map (fun e => match e with
                               | OnStateCallback v => [v]
                               | _ => []
                               end) l = []).
  { induction 1 as [| e l (msg & ->) _ (IH1 & IH2)]; simpl; auto. }
  unfold forwarded, stateValues.
  destruct (handleAudioPlayback_outcome now m s)
    as [((l & E & Hf) & _) | (f & E & _)]; rewrite E, !flat_map_app.
  - destruct (Hl l Hf) as (E1 & E2). now rewrite E1, E2, !app_nil_r.
  - simpl. now rewrite !app_nil_r.
Qed.

(** X6: the dispatch of inbound messages.  Every message that parses is
    passed on to the [onMessage] observer, exactly once, whatever its type
    and whatever the handling of its audio did; a message that is empty or
    does not parse is passed to no observer.  The [onState] observer
    receives the value of a [state] message when it is a non-empty string,
    and nothing otherwise.  A message that does not parse is logged as an
    error, and no message of any kind touches the socket, the queue, the
    attempt counter or the timers. *)
Theorem X6_inbound_dispatch (s : state) (now : Q) (d : MessageData) :
  let s' := step b s (MessageReceived now d) in
  forwarded s'
    = forwarded s ++ match d with Parsed m => [m] | _ => [] end /\
  stateValues s'
    = stateValues s ++ match d with Parsed m => stateValueOf m | _ => [] end /\
  (d = Unparsable -> errorsLogged s' = errorsLogged s ++ [FailedToParse]) /\
  (d = EmptyData -> s' = s) /\
  socket s' = socket s /\ messageQueue s' = messageQueue s /\
  sent s' = sent s /\ reconnectAttempts s' = reconnectAttempts s /\
  pendingTimers s' = pendingTimers s.
Proof.
  intros s'.
  destruct (onmessage_transport b now d s) as (T1 & T2 & T3).
  destruct (onmessage_session b now d s) as (S1 & S2).
  assert (H : forwarded s'
                = forwarded s ++ match d with Parsed m => [m] | _ => [] end /\
              stateValues s'
                = stateValues s
                  ++ match d with Parsed m => stateValueOf m | _ => [] end /\
              (d = Unparsable ->
               errorsLogged s' = errorsLogged s ++ [FailedToParse]) /\
              (d = EmptyData -> s' = s)).
  { unfold s', step, onmessage, log, stateValueOf.
    destruct d as [| | m].
    - rewrite !app_nil_r. repeat split; trivial. discriminate.
    - unfold forwarded, stateValues, errorsLogged. cbn [effects emit].
      rewrite <- !app_assoc, !flat_map_app. simpl.
      rewrite !app_nil_r. repeat split; trivial. discriminate.
    - split; [| split; [| split]]; try discriminate.
      + destruct (String.eqb (msg_type m) "state").
        * destruct (msg_value m) as [[| c v] |];
            unfold forwarded; cbn [effects emit];
            rewrite ?flat_map_app; simpl; now rewrite ?app_nil_r.
        * destruct (String.eqb (msg_type m) "audio");
            [| unfold forwarded; cbn [effects emit];
               rewrite ?flat_map_app; simpl; now rewrite ?app_nil_r].
          destruct (msg_data m);
            [| unfold forwarded; cbn [effects emit];
               rewrite ?flat_map_app; simpl; now rewrite ?app_nil_r].
          destruct (handleAudioPlayback_observers now m s) as (E & _).
          unfold forwarded in *. cbn [effects emit].
          rewrite flat_map_app, E. reflexivity.
      + destruct (String.eqb (msg_type m) "state").
        * destruct (msg_value m) as [[| c v] |];
            unfold stateValues; cbn [effects emit];
            rewrite ?flat_map_app; simpl; now rewrite ?app_nil_r.
        * destruct (String.eqb (msg_type m) "audio");
            [| unfold stateValues; cbn [effects emit];
               rewrite ?flat_map_app; simpl; now rewrite ?app_nil_r].
          destruct (msg_data m);
            [| unfold stateValues; cbn [effects emit];
               rewrite ?flat_map_app; simpl; now rewrite ?app_nil_r].
          destruct (handleAudioPlayback_observers now m s) as (_ & E).
          unfold stateValues in *. cbn [effects emit].
          rewrite flat_map_app, E. simpl. now rewrite !app_nil_r. }
  destruct H as (H1 & H2 & H3 & H4).
  unfold s', step. rewrite T1, T2, T3, S1, S2. auto 10.
Qed.

Lemma chained_snoc ivs iv :
  chained (ivs ++ [iv]) <->
  chained ivs /\ (ivs <> [] -> snd (last ivs (0, 0)) <= fst iv).
Proof.
  induction ivs as [| a rest IH].
  - simpl. split; [intros _; split; [trivial | intros H; now contradiction H]
                  | intros _; auto].
  - destruct rest as [| c rest'].
    + simpl. split.
      * intros (H & _). split; [split; exact I | intros _; exact H].
      * intros (_ & H). split; [apply H; discriminate | split; exact I].
    + change ((a :: c :: rest') ++ [iv]) with (a :: (c :: rest') ++ [iv]).
      change (chained (a :: (c :: rest') ++ [iv]))
        with (snd a <= fst c /\ chained ((c :: rest') ++ [iv])).
      change (chained (a :: c :: rest'))
        with (snd a <= fst c /\ chained (c :: rest')).
      change (last (a :: c :: rest') (0, 0)) with (last (c :: rest') (0, 0)).
      rewrite IH. split.
      * intros (H1 & H2 & H3).
        split; [split; [exact H1 | exact H2] |].
        intros _. apply H3. discriminate.
      * intros ((H1 & H2) & H3).
        split; [exact H1 | split; [exact H2 |]].
        intros _. apply H3. discriminate.
Qed.

Lemma startTime_ge now clock : clock <= startTime now clock.
Proof.
  unfold startTime. destruct (ltb clock (now + (5 # 100))) eqn:E.
  - apply ltb_lt in E. lra.
  - apply Qle_refl.
Qed.

Lemma intervals_logs s l :
  Forall (fun e => exists msg, e = Log msg error) l ->
  flat_map (fun e =>
              match e with
              | SourceStart t samples rate =>
                  [(t, t + inject_Z (Z.of_nat (length samples)) / rate)]
              | _ => []
              end) (effects s ++ l) = intervals s.
Proof.
  intros H. rewrite flat_map_app. fold (intervals s).
  induction H as [| e l (msg & ->) _ IH]; simpl.
  - apply app_nil_r.
  - exact IH.
Qed.

Lemma handleAudioPlayback_tidy now m s :
  playbackTidy s -> playbackTidy (handleAudioPlayback b now m s).
Proof.
  intros (Hch & Hlast).
  destruct (handleAudioPlayback_outcome now m s)
    as [((l & E & Hf) & Hrun) | (f & E & Hctx & Hclk)].
  - assert (Ei : intervals (handleAudioPlayback b now m s) = intervals s).
    { unfold intervals at 1. rewrite E. now apply intervals_logs. }
    unfold playbackTidy. rewrite Ei. split; [exact Hch |].
    intros Hne. destruct (Hlast Hne) as (Hc & Hl).
    destruct (Hrun Hc) as (Hc' & Hk). rewrite Hc', Hk. auto.
  - cbv zeta in E, Hclk.
    set (t := startTime now (clockAfterEnsure now s)) in *.
    set (iv := (t, t + inject_Z (Z.of_nat (length f)) / sampleRateOf m)).
    assert (Ei : intervals (handleAudioPlayback b now m s)
                 = intervals s ++ [iv]).
    { unfold intervals at 1. rewrite E, flat_map_app. reflexivity. }
    unfold playbackTidy. rewrite Ei. split.
    + apply chained_snoc. split; [exact Hch |].
      intros Hne. destruct (Hlast Hne) as (Hc & Hl).
      rewrite Hl. unfold iv, t, clockAfterEnsure. rewrite Hc. simpl fst.
      apply startTime_ge.
    + intros _. split; [exact Hctx |].
      rewrite last_last, Hclk. reflexivity.
Qed.

Lemma onmessage_tidy now d s :
  playbackTidy s -> playbackTidy (onmessage b now d s).
Proof.
  intros Ht.
  assert (Hemit : forall e s0,
            (forall t f r, e <> SourceStart t f r) ->
            playbackTidy s0 -> playbackTidy (emit e s0)).
  { intros e s0 He (H1 & H2).
    assert (Ei : intervals (emit e s0) = intervals s0).
    { unfold intervals. cbn [effects emit]. rewrite flat_map_app.
      destruct e; simpl; try apply app_nil_r.
      exfalso. eapply He. reflexivity. }
    unfold playbackTidy. rewrite Ei. split; trivial. }
  unfold onmessage, log. destruct d as [| | m]; trivial.
  - apply Hemit; [discriminate |]. apply Hemit; [discriminate | exact Ht].
  - apply Hemit; [discriminate |].
    destruct (String.eqb (msg_type m) "state").
    + destruct (msg_value m) as [[| c v] |]; trivial.
      apply Hemit; [discriminate |]. apply Hemit; [discriminate | exact Ht].
    + destruct (String.eqb (msg_type m) "audio");
        [| apply Hemit; [discriminate | exact Ht]].
      destruct (msg_data m); [| apply Hemit; [discriminate | exact Ht]].
      now apply handleAudioPlayback_tidy.
Qed.

(** X7: played buffers never overlap.  Over any sequence of inbound
    messages, of any kind and arriving at any times, received by a transport
    that has started no buffer yet, every buffer is started no earlier than
    the end of the buffer started before it. *)
Theorem X7_buffers_never_overlap (s : state) (events : list Event) :
  intervals s = [] ->
  forallb isMessage events = true ->
  chained (intervals (run b s events)).
Proof.
  intros Hs Hev.
  assert (Ht : playbackTidy s).
  { unfold playbackTidy. rewrite Hs. split; [exact I |].
    intros H. now contradiction H. }
  clear Hs. unfold run. revert s Ht.
  induction events as [| e rest IH]; intros s Ht; [apply Ht |].
  cbn [forallb] in Hev. apply andb_true_iff in Hev.
  destruct Hev as (He & Hrest). cbn [fold_left].
  apply IH; trivial.
  destruct e as [| | | | now d]; try discriminate He.
  unfold step. now apply onmessage_tidy.
Qed.

(** X8: an audio message with a non-empty [data], received where a playback
    context exists or can be created, has exactly one of two outcomes.
    Either its samples decode, there is at least one and the sample rate is
    accepted: then one buffer is started and no error is logged.  Or one
    error is logged, no buffer is started, and the playback clock is where
    [ensurePlaybackContext] left it. *)
Theorem X8_audio_message_plays_or_reports
    (s : state) (now : Q) (m : ServerMessage) (data : string) :
  hasWindow b = true -> hasAudioContextCtor b = true ->
  msg_type m = "audio"%string -> msg_data m = Some data ->
  data <> EmptyString ->
  let s' := step b s (MessageReceived now (Parsed m)) in
  ((exists f, playable b m f)
   /\ length (started s') = S (length (started s))
   /\ errorsLogged s' = errorsLogged s) \/
  (~ (exists f, playable b m f)
   /\ started s' = started s
   /\ errorsLogged s' = errorsLogged s ++ [AudioPlaybackError]
   /\ playbackClock s' = clockAfterEnsure now s).
Proof.
  intros Hw Ha Ht Hd Hne s'.
  unfold s', step. rewrite (onmessage_audio b Hw Ha now m data s Ht Hd Hne).
  destruct (ensurePlaybackContext_available b Hw Ha now s)
    as (s0 & E & _ & Hclk & Heff & _).
  rewrite E.
  assert (Hst : started s0 = started s) by (unfold started; now rewrite Heff).
  assert (Her : errorsLogged s0 = errorsLogged s)
    by (unfold errorsLogged; now rewrite Heff).
  assert (Hfail : forall s1,
            s1 = emit (OnMessageCallback m) (log AudioPlaybackError error s0) ->
            started s1 = started s /\
            errorsLogged s1 = errorsLogged s ++ [AudioPlaybackError] /\
            playbackClock s1 = clockAfterEnsure now s).
  { intros s1 ->. rewrite <- Hst, <- Her, <- Hclk. unfold log.
    trace_simpl. auto. }
  destruct (decodeSamples data) as [f |] eqn:Hdec.
  - destruct (createBuffer b f (sampleRateOf m)) as [dur |] eqn:Hbuf.
    + left. unfold createBuffer in Hbuf.
      destruct f as [| x f]; [discriminate |].
      cbn [length Nat.eqb] in Hbuf.
      destruct (supportsSampleRate b (sampleRateOf m)) eqn:Hr;
        [| discriminate].
      split; [| split].
      * exists (x :: f). unfold playable. repeat split; trivial.
        -- exists data. now split.
        -- discriminate.
      * rewrite <- Hst. unfold schedule.
        match goal with
        | |- context [ltb ?x ?y] => destruct (ltb x y)
        end; trace_simpl; rewrite length_app; simpl; lia.
      * rewrite <- Her. unfold schedule.
        match goal with
        | |- context [ltb ?x ?y] => destruct (ltb x y)
        end; trace_simpl; reflexivity.
    + right. split; [| now apply Hfail].
      intros (f' & _ & (data' & Hd' & Hdec') & Hne' & Hr').
      rewrite Hd in Hd'. injection Hd' as <-.
      rewrite Hdec in Hdec'. injection Hdec' as <-.
      unfold createBuffer in Hbuf. rewrite Hr' in Hbuf.
      destruct f; [now apply Hne' | discriminate].
  - right. split; [| now apply Hfail].
    intros (f' & _ & (data' & Hd' & Hdec') & _).
    rewrite Hd in Hd'. injection Hd' as <-. congruence.
Qed.

End DispatchFacts.

(** ** Further properties of the codec and of the conditioner *)

Section CodecFacts.
Import JSNum Platform AudioRecorder VoiceSocket Terms.

(** An even number of bytes is the byte view of the 16-bit integers read
    from it. *)
Lemma int16View_bytes n : forall bytes,
  length bytes = (2 * n)%nat -> Forall is_byte bytes ->
  uint8ViewOfInt16 (int16View bytes) = bytes /\
  Forall in_int16 (int16View bytes) /\
  length (int16View bytes) = n.
Proof.
  induction n as [| n IH]; intros bytes Hlen Hb.
  - destruct bytes; [| discriminate]. simpl. auto.
  - destruct bytes as [| lo [| hi rest]]; try (simpl in Hlen; lia).
    inversion_clear Hb as [| ? ? Hlo Hb'].
    inversion_clear Hb' as [| ? ? Hhi Hr].
    destruct (IH rest ltac:(simpl in Hlen; lia) Hr) as (E & Hi & Hl).
    unfold is_byte in Hlo, Hhi.
    cbn [int16View]. cbv zeta. split; [| split].
    + change (uint8ViewOfInt16 (?x :: ?l))
        with (int16Bytes x ++ uint8ViewOfInt16 l).
      rewrite E. unfold int16Bytes. cbn [app].
      destruct (Z.leb_spec 32768 (lo + 256 * hi));
        repeat f_equal; Z.to_euclidean_division_equations; lia.
    + constructor; [| exact Hi]. unfold in_int16.
      destruct (Z.leb_spec 32768 (lo + 256 * hi)); lia.
    + simpl. now rewrite Hl.
Qed.

Lemma sample_range s :
  in_int16 s -> -1 <= inject_Z s / 32768 /\ inject_Z s / 32768 < 1.
Proof.
  unfold in_int16, Qle, Qlt, Qdiv, Qmult, Qinv, inject_Z. simpl. lia.
Qed.

(** The decoding of a byte string of even length. *)
Lemma decodeSamples_even data byteStr :
  atob data = Some byteStr ->
  Nat.even (String.length byteStr) = true ->
  decodeSamples data
  = Some (map (fun s => inject_Z s / 32768) (int16View (charCodes byteStr))).
Proof.
  intros Ha He. unfold decodeSamples. rewrite Ha.
  apply Nat.even_spec in He. destruct He as [n Hn].
  assert (Hlen : length (charCodes byteStr) = (2 * n)%nat).
  { unfold charCodes. now rewrite length_map, list_ascii_length. }
  destruct (int16View_bytes n (charCodes byteStr) Hlen (charCodes_bytes _))
    as (E & Hi & Hl).
  rewrite Hn. destruct (sampleCount_even n) as [Ht Hk].
  unfold newFloat32Array. rewrite Ht, Nat2Z.id.
  rewrite <- E at 1. rewrite <- Hl at 2 3.
  apply (decodeLoop_reads (int16View (charCodes byteStr)) (S (2 * n)) [] []
           _ Hi).
  - reflexivity.
  - intros k. rewrite Hl. apply Hk.
  - rewrite Hl. lia.
Qed.

(** X9: the decoding of an inbound payload.  It fails exactly when the text
    is not valid base64 or holds an odd number of bytes.  When it succeeds,
    it gives one sample for every two bytes, namely the 16-bit integer they
    spell low byte first divided by 32768, and every sample lies in
    [-1, 1). *)
Theorem X9_decoding_of_a_payload (data : string) :
  (decodeSamples data = None <->
   atob data = None \/
   exists byteStr, atob data = Some byteStr /\
                   Nat.odd (String.length byteStr) = true) /\
  (forall float32,
     decodeSamples data = Some float32 ->
     exists byteStr,
       atob data = Some byteStr /\
       float32 = map (fun s => inject_Z s / 32768)
                     (int16View (charCodes byteStr)) /\
       String.length byteStr = (2 * length float32)%nat /\
       Forall (fun x => -1 <= x /\ x < 1) float32).
Proof.
  destruct (atob data) as [byteStr |] eqn:Ha.
  - destruct (Nat.even (String.length byteStr)) eqn:He.
    + pose proof (decodeSamples_even data byteStr Ha He) as Hd.
      assert (Ho : Nat.odd (String.length byteStr) = false)
        by (unfold Nat.odd; now rewrite He).
      split.
      * split; [intros H; congruence |].
        intros [H | (bs & H & Hodd)]; [discriminate |].
        injection H as <-. congruence.
      * intros float32 Hf. rewrite Hd in Hf. injection Hf as <-.
        exists byteStr. split; [reflexivity |]. split; [reflexivity |].
        apply Nat.even_spec in He. destruct He as [n Hn].
        assert (Hlen : length (charCodes byteStr) = (2 * n)%nat).
        { unfold charCodes. now rewrite length_map, list_ascii_length. }
        destruct (int16View_bytes n (charCodes byteStr) Hlen
                    (charCodes_bytes _)) as (_ & Hi & Hl).
        split; [now rewrite length_map, Hl |].
        apply Forall_forall. intros x Hx. apply in_map_iff in Hx.
        destruct Hx as (s & <- & Hs). apply sample_range.
        rewrite Forall_forall in Hi. now apply Hi.
    + assert (Ho : Nat.odd (String.length byteStr) = true)
        by (unfold Nat.odd; now rewrite He).
      pose proof (decodeSamples_odd data byteStr Ha Ho) as Hd.
      split.
      * split; [intros _; right; now exists byteStr | intros _; exact Hd].
      * intros float32 Hf. congruence.
  - assert (Hd : decodeSamples data = None)
      by (unfold decodeSamples; now rewrite Ha).
    split.
    + split; [intros _; now left | intros _; exact Hd].
    + intros float32 Hf. congruence.
Qed.

(** X10: distinct sample sequences give distinct payloads. *)
Theorem X10_encoding_is_injective (pcm1 pcm2 : list Z) :
  Forall in_int16 pcm1 -> Forall in_int16 pcm2 ->
  encodePCMToBase64 pcm1 = encodePCMToBase64 pcm2 -> pcm1 = pcm2.
Proof.
  intros H1 H2 E.
  pose proof (decodeSamples_encode pcm1 H1) as D1.
  pose proof (decodeSamples_encode pcm2 H2) as D2.
  rewrite E, D2 in D1. injection D1 as D. clear - D.
  revert pcm1 D. induction pcm2 as [| s2 rest IH]; intros [| s1 pcm1] D;
    try discriminate; trivial.
  simpl in D. injection D as Hs Hr.
  f_equal; [lia | now apply IH].
Qed.

Lemma encoded_length bytes :
  (length (sextets bytes) + length (padding (length bytes))
   = 4 * ((length bytes + 2) / 3))%nat.
Proof.
  induction bytes as [| | a c | a c d rest IH] using list_ind3;
    try reflexivity.
  change (length (a :: c :: d :: rest)) with (S (S (S (length rest)))).
  rewrite padding_step. simpl sextets. simpl length.
  replace (S (S (S (length rest))) + 2)%nat
    with (length rest + 2 + 1 * 3)%nat by lia.
  rewrite Nat.div_add by discriminate. lia.
Qed.

(** X11: the payload of [n] samples is made of [4 * ceil(2n / 3)]
    characters, whatever the samples are. *)
Theorem X11_length_of_the_payload (pcm : list Z) :
  String.length (encodePCMToBase64 pcm)
  = (4 * ((2 * length pcm + 2) / 3))%nat.
Proof.
  rewrite binary_of_pcm. unfold btoa, base64Encode.
  rewrite charCodes_fromCharCode by apply uint8View_bytes.
  rewrite string_of_list_ascii_length, length_app, length_map.
  now rewrite encoded_length, uint8View_length.
Qed.

Lemma conditionSamples_int16 cd : Forall in_int16 (conditionSamples cd).
Proof.
  unfold conditionSamples, quantize. apply Forall_forall. intros p Hp.
  apply in_map_iff in Hp. destruct Hp as (x & <- & _).
  apply quantizeSample_trunc.
Qed.

(** X12: whatever the captured samples are, the payload that the pipeline
    builds from them decodes on the playback side: to as many samples as
    were captured, each of them the quantized sample divided by 32768; and
    it is declared as one channel at 16000 samples per second. *)
Theorem X12_pipeline_payload_decodes (channelData : list Q) :
  let payload := audioPayload (conditionSamples channelData) in
  decodeSamples (data payload)
    = Some (map (fun s => inject_Z s / 32768)
                (conditionSamples channelData)) /\
  length (conditionSamples channelData) = length channelData /\
  sample_rate payload = 16000%Z /\ channels payload = 1%Z.
Proof.
  intros payload. split; [| split; [apply conditionSamples_length | auto]].
  unfold payload, audioPayload. cbn [data].
  apply decodeSamples_encode, conditionSamples_int16.
Qed.

End CodecFacts.

Section ConditionerMore.
Import JSNum AudioRecorder Terms.

Lemma smoothStep_bound M prev raw :
  Qabs prev <= M -> Qabs raw <= M -> Qabs (smoothStep prev raw) <= M.
Proof.
  unfold smoothStep, smoothingFactor. intros Hp Hr.
  apply Qabs_Qle_condition in Hp. apply Qabs_Qle_condition in Hr.
  apply Qabs_Qle_condition. split; lra.
Qed.

Lemma gate_bound M x : 0 <= M -> Qabs x <= M -> Qabs (gate x) <= M.
Proof.
  intros HM Hx. unfold gate.
  destruct (ltb (Qabs x) noiseGateThreshold); trivial.
Qed.

(** Truncation never increases the magnitude. *)
Lemma trunc_abs x : inject_Z (Z.abs (trunc x)) <= Qabs x.
Proof.
  destruct x as [n d]. unfold trunc, Qabs, Qle, inject_Z. simpl.
  rewrite Z.mul_1_r.
  rewrite <- (Z.quot_abs n (Zpos d)) by discriminate.
  change (Z.abs (Zpos d)) with (Zpos d).
  pose proof (Z.mul_quot_le (Z.abs n) (Zpos d) (Z.abs_nonneg n)
                ltac:(discriminate)) as H.
  lia.
Qed.

Lemma clampSample_abs x : Qabs (clampSample x) <= Qabs (x * 32768).
Proof.
  unfold clampSample.
  destruct (Math_min_spec 32767 (x * 32768)) as [[H1 E1] | [H1 E1]];
    rewrite E1;
    match goal with
    | |- context [Math_max ?a ?c] =>
        destruct (Math_max_spec a c) as [[H2 E2] | [H2 E2]]; rewrite E2
    end;
    apply Qabs_Qle_condition;
    pose proof (Qle_Qabs (x * 32768)) as Ha;
    pose proof (Qle_Qabs (- (x * 32768))) as Hb;
    rewrite Qabs_opp in Hb; split; lra.
Qed.

Lemma smoothSeq_bound M cd : forall prev,
  Qabs prev <= M -> Forall (fun raw => Qabs raw <= M) cd ->
  Forall (fun x => Qabs x <= M) (smoothSeq prev cd) /\
  Qabs (finalSmooth prev cd) <= M.
Proof.
  induction cd as [| raw rest IH]; intros prev Hp Hcd.
  - split; [constructor | exact Hp].
  - inversion_clear Hcd as [| ? ? Hraw Hrest].
    pose proof (smoothStep_bound M prev raw Hp Hraw) as Hs.
    destruct (IH _ Hs Hrest) as (H1 & H2).
    split; [constructor; assumption | exact H2].
Qed.

(** X13: the conditioner never amplifies.  If every captured sample is at
    most [M] in magnitude, so is every smoothed sample, every gated sample,
    and every quantized sample is at most [M * 32768] in magnitude. *)
Theorem X13_conditioner_never_amplifies (M : Q) (channelData : list Q) :
  0 <= M ->
  Forall (fun raw => Qabs raw <= M) channelData ->
  Forall (fun x => Qabs x <= M) (smoothSeq 0 channelData) /\
  Forall (fun x => Qabs x <= M) (denoise 0 channelData) /\
  Forall (fun p => inject_Z (Z.abs p) <= M * 32768)
         (conditionSamples channelData).
Proof.
  intros HM Hcd.
  assert (H0 : Qabs 0 <= M) by exact HM.
  destruct (smoothSeq_bound M channelData 0 H0 Hcd) as (Hs & _).
  assert (Hd : Forall (fun x => Qabs x <= M) (denoise 0 channelData)).
  { rewrite denoise_gate. apply Forall_forall. intros x Hx.
    apply in_map_iff in Hx. destruct Hx as (y & <- & Hy).
    apply gate_bound; trivial. rewrite Forall_forall in Hs. now apply Hs. }
  split; [exact Hs |]. split; [exact Hd |].
  unfold conditionSamples, quantize. apply Forall_forall. intros p Hp.
  apply in_map_iff in Hp. destruct Hp as (x & <- & Hx).
  rewrite Forall_forall in Hd. specialize (Hd x Hx).
  destruct (quantizeSample_trunc x) as (E & _). rewrite E.
  eapply Qle_trans; [apply trunc_abs |].
  eapply Qle_trans; [apply clampSample_abs |].
  rewrite Qabs_Qmult.
  change (Qabs 32768) with 32768.
  apply Qmult_le_compat_r; [exact Hd | discriminate].
Qed.

Lemma decayed_nonneg k : forall c, 0 <= c -> 0 <= decayed c k.
Proof.
  induction k as [| k IH]; intros c Hc; simpl; trivial.
  apply IH. unfold smoothingFactor. lra.
Qed.

Lemma decayed_le k : forall c c', 0 <= c -> c <= c' ->
  decayed c k <= decayed c' k.
Proof.
  induction k as [| k IH]; intros c c' Hc Hcc; simpl; trivial.
  apply IH; unfold smoothingFactor; lra.
Qed.

Lemma decayed_step k : forall c, 0 <= c -> decayed c (S k) <= decayed c k.
Proof.
  induction k as [| k IH]; intros c Hc.
  - simpl. unfold smoothingFactor. lra.
  - change (decayed c (S (S k)))
      with (decayed (c * (1 - smoothingFactor)) (S k)).
    change (decayed c (S k)) with (decayed (c * (1 - smoothingFactor)) k).
    apply IH. unfold smoothingFactor. lra.
Qed.

Lemma decayed_mono c k k' :
  0 <= c -> (k <= k')%nat -> decayed c k' <= decayed c k.
Proof.
  intros Hc Hk. induction Hk as [| k' _ IH]; [apply Qle_refl |].
  eapply Qle_trans; [apply decayed_step; exact Hc | exact IH].
Qed.

(** After [k + 1] silent samples a smoothed value bounded by [c] is bounded
    by [c] decayed [k + 1] times; below the threshold, the output is 0. *)
Lemma silence_decays k : forall prev c n,
  0 <= c -> Qabs prev <= c ->
  decayed c (S k) < noiseGateThreshold -> (k < n)%nat ->
  nth k (denoise prev (repeat 0 n)) 0 = 0.
Proof.
  induction k as [| k IH]; intros prev c n Hc Hp Hd Hn;
    (destruct n as [| n]; [lia |]); cbn [repeat denoise nth].
  - apply gate_below. simpl in Hd.
    eapply Qle_lt_trans; [| exact Hd].
    unfold smoothStep, smoothingFactor in *.
    apply Qabs_Qle_condition in Hp. apply Qabs_Qle_condition. split; lra.
  - apply (IH _ (c * (1 - smoothingFactor))).
    + unfold smoothingFactor. lra.
    + unfold smoothStep, smoothingFactor in *.
      apply Qabs_Qle_condition in Hp. apply Qabs_Qle_condition. split; lra.
    + exact Hd.
    + lia.
Qed.

Lemma denoise_app a : forall prev c,
  denoise prev (a ++ c) = denoise prev a ++ denoise (finalSmooth prev a) c.
Proof.
  induction a as [| raw rest IH]; intros prev c; simpl; trivial.
  now rewrite IH.
Qed.

(** X14: the release of the conditioner.  When the captured samples are at
    most 1 in magnitude and the chunk ends in silence, the output is exactly
    0 from the 33rd silent sample on, whatever came before. *)
Theorem X14_silence_after_33_samples
    (head : list Q) (n k : nat) :
  Forall (fun raw => Qabs raw <= 1) head ->
  (32 <= k < n)%nat ->
  nth (length head + k) (conditionSamples (head ++ repeat 0 n)) 0%Z = 0%Z.
Proof.
  intros Hhead (Hk & Hn).
  destruct (smoothSeq_bound 1 head 0 ltac:(discriminate) Hhead) as (_ & Hf).
  assert (Hd : decayed 1 (S k) < noiseGateThreshold).
  { eapply Qle_lt_trans;
      [apply (decayed_mono 1 33 (S k)); [discriminate | lia] |].
    vm_compute. reflexivity. }
  unfold conditionSamples, quantize.
  rewrite denoise_app, map_app, app_nth2;
    rewrite length_map, denoise_length; [| lia].
  replace (length head + k - length head)%nat with k by lia.
  rewrite (nth_indep _ 0%Z (quantizeSample 0))
    by (rewrite length_map, denoise_length, repeat_length; lia).
  rewrite map_nth.
  rewrite (silence_decays k (finalSmooth 0 head) 1 n); trivial.
  discriminate.
Qed.

End ConditionerMore.

Section InFlightFacts.
Import VoiceSocket AudioRecorder.

Variable b : Browser.

Lemma processAudioChunk_begin_passes blob r r1 :
  processAudioChunk_begin b blob r = (r1, true) ->
  isTransmittingRef r = true /\ socketConnected r1 = true /\
  socketRef r1 = socketRef r.
Proof.
  unfold processAudioChunk_begin. intros E.
  destruct (isTransmittingRef r) eqn:Et; [| discriminate].
  destruct (socketConnected r) eqn:Es; [| discriminate].
  simpl in E. destruct (size blob =? 0)%Z; [discriminate |].
  destruct (ensureAudioContext_refs b r) as (_ & _ & _ & Hs & _).
  rewrite E in Hs. simpl in Hs.
  unfold socketConnected in *. rewrite Hs. auto.
Qed.

(** X15: stopping the transmission does not recall a chunk that has passed
    the guard.  When [stopTransmission] runs while the chunk is being
    decoded, the chunk is still sent on the open socket with the flag
    already cleared, and the counter that [stopTransmission] has reset
    ends at 1. *)
Theorem X15_chunk_in_flight_is_still_sent
    (blob : Blob) (r r1 : AudioRecorder.state) (channelData : list Q) :
  processAudioChunk_begin b blob r = (r1, true) ->
  decoded blob = Some channelData ->
  channelData <> [] ->
  let r2 := processAudioChunk_resume blob (stopTransmission r1) in
  let p := audioPayload (conditionSamples channelData) in
  isTransmittingRef r2 = false /\
  chunksSentRef r2 = 1%Z /\
  exists vs vs', socketRef r1 = Some vs /\ socketRef r2 = Some vs' /\
                 sent vs' = sent vs ++ [p] /\
                 messageQueue vs' = messageQueue vs.
Proof.
  intros Hb Hd Hne r2 p.
  destruct (processAudioChunk_begin_passes _ _ _ Hb) as (_ & Hc & _).
  unfold socketConnected in Hc.
  destruct (socketRef r1) as [vs |] eqn:Es; [| discriminate].
  subst r2. unfold processAudioChunk_resume. rewrite Hd.
  destruct channelData as [| x rest]; [congruence |].
  cbn [stopTransmission socketRef set_chunksSentRef set_isTransmittingRef
       set_socketRef isTransmittingRef chunksSentRef].
  rewrite Es. cbn [socketRef set_socketRef isTransmittingRef chunksSentRef
                   set_chunksSentRef].
  split; [reflexivity |]. split; [reflexivity |].
  exists vs. eexists. split; [reflexivity |]. split; [reflexivity |].
  unfold isConnected in Hc. unfold send.
  destruct (socket vs) as [[] |]; try discriminate.
  rewrite sent_emit. split; reflexivity.
Qed.

End InFlightFacts.

Section ConnectionFacts.
Import VoiceSocket AudioRecorder Connection.

Lemma handle_after_settling c e :
  settled c = true -> promise c <> pending ->
  settled (handle c e) = true /\ promise (handle c e) = promise c /\
  connectError (handle c e) = connectError c /\
  isConnecting (handle c e) = isConnecting c.
Proof.
  intros Hs Hp.
  destruct e; simpl; auto;
    unfold onOpen, onClose, onError, resolve, reject; rewrite ?Hs; simpl;
    destruct (promise c); try congruence; auto.
Qed.

Lemma observe_after_settling trace : forall c,
  settled c = true -> promise c <> pending ->
  promise (observe trace c) = promise c /\
  connectError (observe trace c) = connectError c /\
  isConnecting (observe trace c) = isConnecting c.
Proof.
  induction trace as [| e rest IH]; intros c Hs Hp; [auto |].
  destruct (handle_after_settling c e Hs Hp) as (Hs' & Hp' & He' & Hi').
  simpl. destruct (IH (handle c e) Hs') as (H1 & H2 & H3).
  - now rewrite Hp'.
  - now rewrite H1, H2, H3, Hp', He', Hi'.
Qed.

Lemma handle_first c e :
  settled c = false -> promise c = pending -> isLifecycle e = true ->
  settled (handle c e) = true /\
  promise (handle c e) = verdict (Some e) /\
  connectError (handle c e) =
    match reasonOf (verdict (Some e)) with
    | Some reason => Some reason
    | None => connectError c
    end /\
  isConnecting (handle c e) = false.
Proof.
  intros Hs Hp He.
  destruct e; try discriminate; simpl;
    unfold onOpen, onClose, onError, resolve, reject; rewrite ?Hs; simpl;
    rewrite ?Hp; simpl; auto.
Qed.

Lemma handle_other c e :
  isLifecycle e = false ->
  settled (handle c e) = settled c /\ promise (handle c e) = promise c /\
  connectError (handle c e) = connectError c /\
  isConnecting (handle c e) = isConnecting c.
Proof.
  destruct e; try discriminate; simpl; auto.
Qed.

(** X16: the promise of [connectSocket] is decided by the first of the
    callbacks [onOpen], [onClose] and [onError] that the transport makes:
    fulfilled by [onOpen], rejected by the other two, pending when there is
    none.  Later callbacks change neither the promise nor the error that
    [handleConnect] shows, which is the reason of the rejection. *)
Theorem X16_first_callback_settles_the_promise
    (trace : list Effect) (c : Connection.state) :
  settled c = false ->
  promise c = pending ->
  let first := find isLifecycle trace in
  let c' := observe trace c in
  promise c' = verdict first /\
  connectError c' = match reasonOf (verdict first) with
                    | Some reason => Some reason
                    | None => connectError c
                    end /\
  isConnecting c' = match first with
                    | Some _ => false
                    | None => isConnecting c
                    end.
Proof.
  revert c. induction trace as [| e rest IH]; intros c Hs Hp.
  - simpl. rewrite Hp. auto.
  - cbn [find observe fold_left]. destruct (isLifecycle e) eqn:He.
    + destruct (handle_first c e Hs Hp He) as (Hs' & Hp' & He' & Hi').
      destruct (observe_after_settling rest (handle c e) Hs')
        as (H1 & H2 & H3).
      * rewrite Hp'. destruct e; try discriminate; simpl; discriminate.
      * unfold observe in *. now rewrite H1, H2, H3, Hp', He', Hi'.
    + destruct (handle_other c e He) as (Hs' & Hp' & He' & Hi').
      destruct (IH (handle c e)) as (H1 & H2 & H3);
        [congruence | congruence |].
      unfold observe in *. cbn zeta in *.
      now rewrite H1, H2, H3, He', Hi'.
Qed.

Lemma onClose_spec code c :
  settled (onClose code c) = true /\
  isTransmittingRef (recorder (onClose code c)) = false /\
  connectedRef (onClose code c) = false /\
  voiceConnected (onClose code c) = false.
Proof.
  unfold onClose, reject.
  destruct (negb (settled c)); simpl; [destruct (promise c) |]; simpl; auto.
Qed.

Lemma observe_link rest : forall c up,
  settled c = true ->
  isTransmittingRef (recorder c) = false ->
  connectedRef c = up -> voiceConnected c = up ->
  forallb (fun e => negb (isClose e)) rest = true ->
  isTransmittingRef (recorder (observe rest c)) = false /\
  connectedRef (observe rest c) = up || existsb isOpen rest /\
  voiceConnected (observe rest c) = up || existsb isOpen rest.
Proof.
  induction rest as [| e rest IH]; intros c up Hs Ht Hc Hv Hr.
  - simpl. rewrite orb_false_r. auto.
  - simpl in Hr. apply andb_true_iff in Hr. destruct Hr as (He & Hr).
    cbn [observe fold_left existsb].
    assert (H : settled (handle c e) = true /\
                isTransmittingRef (recorder (handle c e)) = false /\
                connectedRef (handle c e) = up || isOpen e /\
                voiceConnected (handle c e) = up || isOpen e).
    { destruct e; try discriminate; simpl; rewrite ?orb_false_r, ?orb_true_r;
        auto; unfold onOpen, onError, resolve; rewrite ?Hs; simpl;
        destruct (promise c); simpl; auto. }
    destruct H as (Hs' & Ht' & Hc' & Hv').
    destruct (IH (handle c e) _ Hs' Ht' Hc' Hv' Hr) as (H1 & H2 & H3).
    unfold observe in *. rewrite H1, H2, H3, orb_assoc. auto.
Qed.

(** X17: a drop of the connection stops the transmission, and a later
    reconnection does not resume it.  After a call of [onClose] that no
    other follows, the component is not transmitting, whatever came before;
    it and the page report a connection exactly when the transport has
    called [onOpen] since. *)
Theorem X17_drop_stops_transmission
    (before rest : list Effect) (code : Z) (c : Connection.state) :
  forallb (fun e => negb (isClose e)) rest = true ->
  let c' := observe (before ++ OnCloseCallback code :: rest) c in
  isTransmittingRef (recorder c') = false /\
  connectedRef c' = existsb isOpen rest /\
  voiceConnected c' = existsb isOpen rest.
Proof.
  intros Hr c'. subst c'. unfold observe. rewrite fold_left_app.
  cbn [fold_left handle].
  destruct (onClose_spec code (fold_left handle before c))
    as (Hs & Ht & Hc & Hv).
  exact (observe_link rest _ false Hs Ht Hc Hv Hr).
Qed.

End ConnectionFacts.

Section PanelFacts.
Import MessageLog.

Lemma firstn_app_firstn {A} (n : nat) (a prev : list A) :
  (1 <= length a)%nat ->
  firstn (S n) (a ++ firstn n prev) = firstn (S n) (a ++ prev).
Proof.
  intros Ha. rewrite !firstn_app, firstn_firstn. f_equal. f_equal. lia.
Qed.

(** X18: the message panel holds the newest 100 messages, newest first.
    From a list of at most 100 messages, any number of calls of
    [addMessage] leaves the first 100 of the new messages in reverse order
    followed by the old ones. *)
Theorem X18_panel_keeps_the_newest_100
    (entries prev : list Message) :
  (length prev <= 100)%nat ->
  addMessages entries prev = firstn 100 (rev entries ++ prev).
Proof.
  revert prev. induction entries as [| e rest IH]; intros prev Hp.
  - cbn [addMessages fold_left rev app]. symmetry. now apply firstn_all2.
  - cbn [addMessages fold_left]. fold (addMessages rest (addMessage prev e)).
    rewrite IH.
    + unfold addMessage. cbn [rev].
      change (e :: firstn 99 prev) with ([e] ++ firstn 99 prev).
      rewrite app_assoc. apply firstn_app_firstn.
      rewrite length_app. cbn [length]. lia.
    + unfold addMessage. cbn [length]. rewrite length_firstn. lia.
Qed.

End PanelFacts.

Section TranscriptFacts.
Import Transcript.

Variable TranscriptMessages : Type.
Variable JSON_parse : string -> option TranscriptMessages.

(** X19: the transcript is replaced, not extended.  After any frames the
    hook holds what the last well-formed frame parsed to, and what it held
    before when no frame is well formed: empty and malformed frames leave
    it as it is. *)
Theorem X19_last_well_formed_frame_wins
    (frames : list string) (messages : TranscriptMessages) :
  receive TranscriptMessages JSON_parse frames messages =
  match find (wellFormed TranscriptMessages JSON_parse) (rev frames) with
  | Some data =>
      match JSON_parse data with
      | Some parsed => parsed
      | None => messages
      end
  | None => messages
  end.
Proof.
  induction frames as [| data rest IH] using rev_ind; [reflexivity |].
  unfold receive in *. rewrite fold_left_app, rev_app_distr.
  cbn [fold_left rev app find].
  unfold onmessage at 1. unfold wellFormed at 1.
  destruct data as [| a data']; [exact IH |].
  destruct (JSON_parse (String a data')) eqn:E; [| exact IH].
  now rewrite E.
Qed.

End TranscriptFacts.

(** ** Further statements at concrete inputs *)

Section MoreInstances.
Import JSNum VoiceSocket Session AudioRecorder Connection MessageLog.

Lemma X1_frames_kept_in_order_witness :
  let s := init page new in
  let s' := perform page s [Submit (frame "A"); Deliver SocketOpened;
                            Submit (frame "B")] in
  sent s' ++ messageQueue s'
    = (sent s ++ messageQueue s) ++ [frame "A"; frame "B"] /\
  (isConnected s' = true -> messageQueue s' = []).
Proof.
  assert (H : isConnected (init page new) = true ->
              messageQueue (init page new) = [])
    by (intros _; reflexivity).
  exact (X1_frames_kept_in_order page (init page new)
           [Submit (frame "A"); Deliver SocketOpened; Submit (frame "B")] H).
Defined.

Lemma X2_one_timer_and_bounded_attempts_witness :
  let s' := run page (init page new)
                [SocketClosed 1006; TimerFired; SocketOpened] in
  (0 <= reconnectAttempts s' <= 5)%Z /\
  (length (pendingTimers s') <= 1)%nat /\
  (pendingTimers s' <> [] -> socket s' = Some CLOSED).
Proof.
  assert (H1 : (0 <= reconnectAttempts (init page new)
                <= maxReconnectAttempts)%Z)
    by (vm_compute; split; discriminate).
  assert (H2 : enabledRun page (init page new)
                 [SocketClosed 1006; TimerFired; SocketOpened])
    by (vm_compute; auto).
  exact (X2_one_timer_and_bounded_attempts page (init page new)
           [SocketClosed 1006; TimerFired; SocketOpened] H1 eq_refl H2).
Defined.

Lemma X4_close_keeps_pending_reconnection_witness :
  let s := step page (init page new) (SocketClosed 1006) in
  let s1 := step page (close s) TimerFired in
  let s2 := step page s1 SocketOpened in
  socket s1 = Some CONNECTING /\
  reconnectAttempts s1 = (reconnectAttempts s + 1)%Z /\
  isClosing s1 = true /\
  isConnected s2 = true /\ isClosing s2 = true.
Proof.
  assert (H : pendingTimers (step page (init page new) (SocketClosed 1006))
              <> [])
    by (vm_compute; discriminate).
  exact (X4_close_keeps_pending_reconnection page
           (step page (init page new) (SocketClosed 1006)) eq_refl H).
Defined.

Lemma X5_open_restores_retry_budget_witness :
  let s := init page new in
  let s1 := step page s SocketOpened in
  reconnectAttempts s1 = 0%Z /\
  scheduled (run page s1 (rounds [1006; 1006; 1001; 1006; 1011]%Z))
    = scheduled s ++ [0; 1000; 2000; 3000; 4000]%Z.
Proof.
  assert (H : Forall (fun code => code <> 1000%Z)
                     [1006; 1006; 1001; 1006; 1011]%Z)
    by (repeat constructor; discriminate).
  exact (X5_open_restores_retry_budget page (init page new)
           [1006; 1006; 1001; 1006; 1011]%Z
           eq_refl eq_refl eq_refl eq_refl H).
Defined.

Lemma X7_buffers_never_overlap_witness :
  chained (intervals (run page new
                        [MessageReceived 0 (Parsed oneSecond);
                         MessageReceived (1 # 2) (Parsed threeBytes);
                         MessageReceived 3 (Parsed oneSecond)])).
Proof.
  exact (X7_buffers_never_overlap page new
           [MessageReceived 0 (Parsed oneSecond);
            MessageReceived (1 # 2) (Parsed threeBytes);
            MessageReceived 3 (Parsed oneSecond)] eq_refl eq_refl).
Defined.

Lemma X8_audio_message_plays_or_reports_witness :
  let s' := step page new (MessageReceived 0 (Parsed threeBytes)) in
  ((exists f, playable page threeBytes f)
   /\ length (started s') = S (length (started new))
   /\ errorsLogged s' = errorsLogged new) \/
  (~ (exists f, playable page threeBytes f)
   /\ started s' = started new
   /\ errorsLogged s' = errorsLogged new ++ [AudioPlaybackError]
   /\ playbackClock s' = clockAfterEnsure 0 new).
Proof.
  assert (H : "AAAA"%string <> EmptyString) by discriminate.
  exact (X8_audio_message_plays_or_reports page new 0 threeBytes "AAAA"
           eq_refl eq_refl eq_refl eq_refl H).
Defined.

Lemma X10_encoding_is_injective_witness :
  [1; -2]%Z = map Z.opp [-1; 2]%Z.
Proof.
  assert (H1 : Forall in_int16 [1; -2]%Z)
    by (repeat constructor; discriminate).
  assert (H2 : Forall in_int16 (map Z.opp [-1; 2]%Z))
    by (repeat constructor; discriminate).
  assert (E : encodePCMToBase64 [1; -2]%Z
              = encodePCMToBase64 (map Z.opp [-1; 2]%Z))
    by (vm_compute; reflexivity).
  exact (X10_encoding_is_injective [1; -2]%Z (map Z.opp [-1; 2]%Z) H1 H2 E).
Defined.

Lemma X13_conditioner_never_amplifies_witness :
  Forall (fun x => Qabs x <= 1 # 2) (smoothSeq 0 [1 # 2; - (1 # 4)]) /\
  Forall (fun x => Qabs x <= 1 # 2) (denoise 0 [1 # 2; - (1 # 4)]) /\
  Forall (fun p => inject_Z (Z.abs p) <= (1 # 2) * 32768)
         (conditionSamples [1 # 2; - (1 # 4)]).
Proof.
  assert (H0 : 0 <= 1 # 2) by discriminate.
  assert (H : Forall (fun raw => Qabs raw <= 1 # 2) [1 # 2; - (1 # 4)])
    by (repeat constructor; discriminate).
  exact (X13_conditioner_never_amplifies (1 # 2) [1 # 2; - (1 # 4)] H0 H).
Defined.

Lemma X14_silence_after_33_samples_witness :
  nth (length [1; - (1 # 2)] + 32)
      (conditionSamples ([1; - (1 # 2)] ++ repeat 0 40)) 0%Z = 0%Z.
Proof.
  assert (H : Forall (fun raw => Qabs raw <= 1) [1; - (1 # 2)])
    by (repeat constructor; discriminate).
  assert (Hk : (32 <= 32 < 40)%nat) by lia.
  exact (X14_silence_after_33_samples [1; - (1 # 2)] 40 32 H Hk).
Defined.

Lemma X15_chunk_in_flight_is_still_sent_witness :
  let r1 := transmitting (set_socket (Some OPEN) new) in
  let r2 := processAudioChunk_resume chunk (stopTransmission r1) in
  let p := audioPayload (conditionSamples [3 # 8; -2 # 1; 1 # 100]) in
  isTransmittingRef r2 = false /\
  chunksSentRef r2 = 1%Z /\
  exists vs vs', socketRef r1 = Some vs /\ socketRef r2 = Some vs' /\
                 sent vs' = sent vs ++ [p] /\
                 messageQueue vs' = messageQueue vs.
Proof.
  assert (H : [3 # 8; -2 # 1; 1 # 100] <> []) by discriminate.
  exact (X15_chunk_in_flight_is_still_sent page chunk
           (transmitting (set_socket (Some OPEN) new))
           (transmitting (set_socket (Some OPEN) new))
           [3 # 8; -2 # 1; 1 # 100] eq_refl eq_refl H).
Defined.

Lemma X16_first_callback_settles_the_promise_witness :
  let trace := effects (run page (init page new)
                          [SocketFailed; SocketClosed 1006; TimerFired;
                           SocketOpened]) in
  let c' := observe trace (connecting (transmitting new)) in
  promise c' = rejected SocketError /\
  connectError c' = Some SocketError /\
  isConnecting c' = false.
Proof.
  exact (X16_first_callback_settles_the_promise
           (effects (run page (init page new)
                       [SocketFailed; SocketClosed 1006; TimerFired;
                        SocketOpened]))
           (connecting (transmitting new)) eq_refl eq_refl).
Defined.

Lemma X17_drop_stops_transmission_witness :
  let c' := observe ([OnOpenCallback] ++ OnCloseCallback 1006 ::
                     [OnStateCallback "listening"; OnOpenCallback])
                    (connecting (transmitting new)) in
  isTransmittingRef (recorder c') = false /\
  connectedRef c' = true /\ voiceConnected c' = true.
Proof.
  exact (X17_drop_stops_transmission [OnOpenCallback]
           [OnStateCallback "listening"; OnOpenCallback] 1006
           (connecting (transmitting new)) eq_refl).
Defined.

Lemma X18_panel_keeps_the_newest_100_witness :
  let m1 := {| id := 1; text := "Connecting voice socket";
               level := info |} in
  let m2 := {| id := 2; text := "Voice socket connected";
               level := success |} in
  addMessages [m1; m2] [] = firstn 100 (rev [m1; m2] ++ []).
Proof.
  assert (H : (@length Message [] <= 100)%nat) by (simpl; lia).
  exact (X18_panel_keeps_the_newest_100
           [{| id := 1; text := "Connecting voice socket"; level := info |};
            {| id := 2; text := "Voice socket connected";
               level := success |}] [] H).
Defined.

End MoreInstances.
